(** * PrismaTC: the per-lane key scheduler of [main.c]

  A shallow embedding of [src/PrismaTC/main.c] and the properties its
  specification states about it.

  Conventions of the embedding.
  - A C [int] is a [Z]; every [+] and [-] of the source is followed by
    the 32-bit two's-complement wrap-around the MSVC target computes.
  - A C [double] is a [spec_float] at precision 53 / emax 1024, with the
    IEEE operations of [Stdlib.Floats.SpecFloat].  The cast [(int)d] is
    partial: it has no value for NaN, the infinities and magnitudes
    outside [int].
  - What the program takes from [windows.h], [stdlib.h] and [math.h]
    ([VK_SPACE], [VK_OEM_1], [RAND_MAX], [log], [cos]) is gathered in a
    [Platform] that every definition is parameterised by.
  - What a lane thread reads from its surroundings (the volatile
    globals, [rand()], the performance counter) is given to it as an
    explicit environment, read in program order.
  - Where the order of the steps of a lane thread and of the host's
    [setStopClicking] matters, the two run as threads over the shared
    globals, in the order a schedule gives ([interleave]). *)

From Stdlib Require Import ZArith Lia Bool.
From Stdlib Require Import Floats.SpecFloat.
From Stdlib Require Import Sorting.Sorted.
From stdpp Require Import base tactics option list sorting.

Local Open Scope Z_scope.

(** ** Machine integers *)

Module CInt.

(** Two's-complement reduction of [z] to [w] bits. *)
Definition wrap (w z : Z) : Z := (z + 2 ^ (w - 1)) mod 2 ^ w - 2 ^ (w - 1).

Definition min_int : Z := - 2 ^ 31.
Definition max_int : Z := 2 ^ 31 - 1.

Definition in_range (z : Z) : bool := (min_int <=? z) && (z <=? max_int).

(** [a + b] and [a - b] on [int]. *)
Definition add (a b : Z) : Z := wrap 32 (a + b).
Definition sub (a b : Z) : Z := wrap 32 (a - b).

(** [a - b] on [LONGLONG]. *)
Definition sub64 (a b : Z) : Z := wrap 64 (a - b).

(** Storing an [int] into a [char] (signed with MSVC) and into a [WORD]. *)
Definition to_char (z : Z) : Z := wrap 8 z.
Definition to_word (z : Z) : Z := z mod 2 ^ 16.

End CInt.

(** ** Doubles *)

Module CDouble.

Definition prec : Z := 53.
Definition emax : Z := 1024.

Definition double : Type := spec_float.

(** Conversion of an integer to [double] (round to nearest even; exact
    for every [int]). *)
Definition of_Z (z : Z) : double := binary_normalize prec emax z 0 false.

Definition add : double -> double -> double := SFadd prec emax.
Definition mul : double -> double -> double := SFmul prec emax.
Definition div : double -> double -> double := SFdiv prec emax.
Definition sqrt : double -> double := SFsqrt prec emax.
Definition ltb : double -> double -> bool := SFltb.

(** [m * 2 ^ e] as a correctly rounded double. *)
Definition lit (m e : Z) : double := binary_normalize prec emax m e false.

Definition is_finite (d : double) : bool :=
  match d with
  | S754_zero _ | S754_finite _ _ _ => true
  | S754_infinity _ | S754_nan => false
  end.

(** The cast [(int)d]: truncation toward zero.  A NaN, an infinity or a
    value whose integral part is not an [int] has no defined result. *)
Definition to_int (d : double) : option Z :=
  match d with
  | S754_zero _ => Some 0
  | S754_finite s m e =>
      let mag := Z.shiftl (Z.pos m) e in
      let v := if s then - mag else mag in
      if CInt.in_range v then Some v else None
  | S754_infinity _ | S754_nan => None
  end.

Definition pos_zero : double := S754_zero false.
Definition neg_infinity : double := S754_infinity true.

End CDouble.

(** ** What the headers and the C library provide *)

Record Platform := {
  RAND_MAX : Z;                      (* stdlib.h *)
  VK_SPACE : Z;                      (* winuser.h *)
  VK_OEM_1 : Z;                      (* winuser.h *)
  log : CDouble.double -> CDouble.double;    (* math.h *)
  cos : CDouble.double -> CDouble.double     (* math.h *)
}.

(** The constants of the Windows SDK and of the MSVC runtime, over any
    [log] and [cos]. *)
Definition msvc (flog fcos : CDouble.double -> CDouble.double) : Platform :=
  {| RAND_MAX := 32767; VK_SPACE := 32; VK_OEM_1 := 186;
     log := flog; cos := fcos |}.

(** ** Constants and data of the program *)

Definition MAX_KEYS : nat := 9.
Definition MAX_OBJECTS_PER_COLUMN : Z := 9999.

(** [3.14159265358979323846] rounded to double. *)
Definition PI : CDouble.double := CDouble.lit 7074237752028440 (-51).

Module HitObject.
Record t := { x : Z; y : Z; timestamp : Z; object_type : Z; end_time : Z }.
End HitObject.

Module KeyState.
Record t := { key : Z; press_time : Z; release_time : Z; is_pressed : bool }.

Definition with_key (k : Z) (s : t) : t :=
  {| key := k; press_time := press_time s; release_time := release_time s;
     is_pressed := is_pressed s |}.

Definition with_is_pressed (b : bool) (s : t) : t :=
  {| key := key s; press_time := press_time s; release_time := release_time s;
     is_pressed := b |}.
End KeyState.

(** [struct ThreadData]; [objects] holds the [count] entries the thread
    may read, so [count] is [length objects]. *)
Module ThreadData.
Record t := {
  objects : list HitObject.t;
  columnIndex : nat;
  startTimeAdjustment : Z;
  enableClicking : bool;
  offset : Z
}.
End ThreadData.

(** The process-wide variables: [stopClicking], [timingShift], [offset]
    and the [keyStates] array of [MAX_KEYS] entries. *)
Record Globals := {
  stopClicking : bool;
  timingShift : Z;
  offset : Z;
  keyStates : list KeyState.t
}.

Definition zero_KeyState : KeyState.t :=
  {| KeyState.key := 0; KeyState.press_time := 0; KeyState.release_time := 0;
     KeyState.is_pressed := false |}.

(** The globals as the initialisers of the source leave them. *)
Definition initial_globals : Globals :=
  {| stopClicking := false; timingShift := 0; offset := 30;
     keyStates := replicate MAX_KEYS zero_KeyState |}.

(** What [SendInput] is asked to inject. *)
Inductive KeyEvent :=
  | KeyDown (k : Z)
  | KeyUp (k : Z).

(** [a[i]] for a C index; no value outside the array. *)
Definition array_get {A} (a : list A) (i : Z) : option A :=
  if i <? 0 then None else a !! Z.to_nat i.

(** ** [compare_ints] and the C library's [qsort] *)

Definition compare_ints (a b : Z) : Z := CInt.sub a b.

(** [qsort] over an [int] array, as an insertion sort that asks [cmp a b]
    and places [a] before [b] when the answer is not positive. *)
Fixpoint qsort_insert (cmp : Z -> Z -> Z) (a : Z) (l : list Z) : list Z :=
  match l with
  | [] => [a]
  | b :: l' => if cmp a b <=? 0 then a :: l else b :: qsort_insert cmp a l'
  end.

Fixpoint qsort (cmp : Z -> Z -> Z) (l : list Z) : list Z :=
  match l with
  | [] => []
  | a :: l' => qsort_insert cmp a (qsort cmp l')
  end.

(** ** The random source *)

(** The state of [rand()]: the values its next calls return, the next
    one first. *)
Definition RandState : Type := nat -> Z.

(** [rand()]: the value returned and the state left. *)
Definition rand (s : RandState) : Z * RandState :=
  (s 0%nat, fun n => s (S n)).

(** The state left by [n] calls. *)
Definition advance (n : nat) (s : RandState) : RandState :=
  fun k => s (n + k)%nat.

Section Program.

Variable P : Platform.

(** ** Key bindings *)

(** [char keys[]]: each initialiser is stored into a [char]. *)
Definition keys : list Z :=
  CInt.to_char <$> [65; 83; 68; 70; VK_SPACE P; 74; 75; 76; VK_OEM_1 P].

(** [keyStates[i].key = k]; no result when [i] is outside the array. *)
Definition set_key (i : nat) (k : Z) (ks : list KeyState.t)
  : option (list KeyState.t) :=
  s ← ks !! i; Some (<[i := KeyState.with_key k s]> ks).

(** [for (i = n - 1, keyIndex = ..; i >= 0; i--, keyIndex--)
       keyStates[i].key = keys[keyIndex];] *)
Fixpoint bindLeft (n : nat) (keyIndex : Z) (ks : list KeyState.t)
  : option (list KeyState.t) :=
  match n with
  | O => Some ks
  | S i =>
      k ← array_get keys keyIndex;
      ks' ← set_key i (CInt.to_word k) ks;
      bindLeft i (keyIndex - 1) ks'
  end.

(** [for (i = .., keyIndex = ..; i < columnCount; i++, keyIndex++)
       keyStates[i].key = keys[keyIndex];], with [n = columnCount - i]
    iterations left. *)
Fixpoint bindRight (n i : nat) (keyIndex : Z) (ks : list KeyState.t)
  : option (list KeyState.t) :=
  match n with
  | O => Some ks
  | S n' =>
      k ← array_get keys keyIndex;
      ks' ← set_key i (CInt.to_word k) ks;
      bindRight n' (S i) (keyIndex + 1) ks'
  end.

(** [for (i = 0; i < columnCount; i++) keyStates[i].key = customKeys[i];] *)
Fixpoint bindCustom (customKeys : list Z) (n i : nat) (ks : list KeyState.t)
  : option (list KeyState.t) :=
  match n with
  | O => Some ks
  | S n' =>
      k ← customKeys !! i;
      ks' ← set_key i k ks;
      bindCustom customKeys n' (S i) ks'
  end.

(** [setupKeyBindings]; [customKeys = None] is the NULL pointer.  The
    result is the new [keyStates], or nothing when an access leaves an
    array.  [columns] is not read. *)
Definition setupKeyBindings (columns : list Z) (columnCount : nat)
    (customKeys : option (list Z)) (ks : list KeyState.t)
  : option (list KeyState.t) :=
  let middleIndex := (columnCount / 2)%nat in
  match customKeys with
  | Some table => bindCustom table columnCount 0 ks
  | None =>
      if (columnCount mod 2 =? 1)%nat then
        ks1 ← set_key middleIndex (CInt.to_word (VK_SPACE P)) ks;
        ks2 ← bindLeft middleIndex 3 ks1;
        bindRight (columnCount - (middleIndex + 1)) (middleIndex + 1) 5 ks2
      else
        ks1 ← bindLeft middleIndex 3 ks;
        bindRight (columnCount - middleIndex) middleIndex 5 ks1
  end.

(** [getKeyIndex]: the first [i] with [x == columns[i]], else [-1]. *)
Fixpoint getKeyIndex_from (i : Z) (x : Z) (columns : list Z) : Z :=
  match columns with
  | [] => -1
  | c :: rest => if x =? c then i else getKeyIndex_from (i + 1) x rest
  end.

Definition getKeyIndex (x : Z) (columns : list Z) : Z :=
  getKeyIndex_from 0 x columns.

(** ** Jitter generator *)

(** [(double)rand() / RAND_MAX] for the value [r] that [rand()] returned. *)
Definition uniform (r : Z) : CDouble.double :=
  CDouble.div (CDouble.of_Z r) (CDouble.of_Z (RAND_MAX P)).

(** [sqrt(-2.0 * log(u1)) * cos(2.0 * PI * u2)] *)
Definition boxMuller (u1 u2 : CDouble.double) : CDouble.double :=
  CDouble.mul
    (CDouble.sqrt (CDouble.mul (CDouble.lit (-2) 0) (log P u1)))
    (cos P (CDouble.mul (CDouble.mul (CDouble.lit 2 0) PI) u2)).

(** [generateBellCurveOffset(maxOffset)] run on the random source in the
    state [s]: the offset, when the cast has a value, and the state the
    source is left in. *)
Definition generateBellCurveOffset (maxOffset : Z) (s : RandState)
  : option Z * RandState :=
  let '(r1, s1) := rand s in
  let u1 := uniform r1 in
  let '(r2, s2) := rand s1 in
  let u2 := uniform r2 in
  let z := boxMuller u1 u2 in
  (CDouble.to_int
     (CDouble.div (CDouble.mul z (CDouble.of_Z maxOffset)) (CDouble.lit 3 0)),
   s2).

(** ** What a lane thread reads from its surroundings *)

(** One call [generateBellCurveOffset(offset)] of the lane player: the
    value the volatile global [offset] holds when the argument is
    evaluated, and the state the random source is in when the call is
    entered. *)
Record JitterRead := { amplitude : Z; source : RandState }.

(** The reads of one loop iteration, in program order: the press draw,
    the release draw, [timingShift] in the expression of [pressTime] and
    [timingShift] in the hold branch of [releaseTime]. *)
Record ObjectReads := {
  press_jitter : JitterRead;
  release_jitter : JitterRead;
  shift_at_press : Z;
  shift_at_release : Z
}.

(** One evaluation of [if (stopClicking) return 0;] and, when the flag
    reads FALSE, of the [QueryPerformanceCounter] that follows it.  Every
    read of the flag in [columnPlayer] is of this form. *)
Record Poll := { poll_stop : bool; poll_counter : Z }.

(** The surroundings of one lane thread: the counter frequency, the
    counter at thread start, the reads of each loop iteration, and the
    polls it makes, oldest first.  A finite [polls] is a finite prefix of
    the thread's life. *)
Record LaneEnv := {
  frequency : Z;
  start_counter : Z;
  reads : nat -> ObjectReads;
  polls : list Poll
}.

(** What a lane thread reads when no other thread writes the globals [g]
    or draws from the random source meanwhile, the source being in the
    state [s] when the thread starts: each iteration makes four draws. *)
Definition quiet_reads (g : Globals) (s : RandState) : nat -> ObjectReads :=
  fun i =>
    {| press_jitter :=
         {| amplitude := offset g; source := advance (4 * i) s |};
       release_jitter :=
         {| amplitude := offset g; source := advance (4 * i + 2) s |};
       shift_at_press := timingShift g;
       shift_at_release := timingShift g |}.

(** ** Lane player *)

Definition draw (j : JitterRead) : option Z :=
  (generateBellCurveOffset (amplitude j) (source j)).1.

(** Lines 118-126 of [columnPlayer]: [pressTime] and [releaseTime] of
    [obj], whose successor in the lane is [nextObj].  No result when a
    jitter draw has none. *)
Definition objectTimes (startTimeAdjustment : Z) (obj : HitObject.t)
    (nextObj : option HitObject.t) (r : ObjectReads) : option (Z * Z) :=
  pressOffset ← draw (press_jitter r);
  releaseOffset ← draw (release_jitter r);
  let pressTime :=
    CInt.add
      (CInt.add (CInt.sub (HitObject.timestamp obj) startTimeAdjustment)
                pressOffset)
      (shift_at_press r) in
  let releaseTime :=
    if HitObject.object_type obj =? 128 then
      CInt.add
        (CInt.add (CInt.sub (HitObject.end_time obj) startTimeAdjustment)
                  releaseOffset)
        (shift_at_release r)
    else CInt.add (CInt.add pressTime 50) releaseOffset in
  let releaseTime :=
    match nextObj with
    | Some next =>
        let limit :=
          CInt.sub (CInt.sub (HitObject.timestamp next) startTimeAdjustment) 5 in
        if releaseTime >? limit then limit else releaseTime
    | None => releaseTime
    end in
  Some (pressTime, releaseTime).

(** [(double)(currentTime - startTime) * 1000.0 / frequency] *)
Definition elapsedTime (env : LaneEnv) (counter : Z) : CDouble.double :=
  CDouble.div
    (CDouble.mul (CDouble.of_Z (CInt.sub64 counter (start_counter env)))
                 (CDouble.lit 1000 0))
    (CDouble.of_Z (frequency env)).

Inductive Wait :=
  | Reached (elapsed : CDouble.double) (rest : list Poll)
  | Stopped
  | Pending.

(** [while (elapsedTime < target) { if (stopClicking) return 0; ... }].
    [Pending]: the loop is still spinning when the polls end. *)
Fixpoint busyWait (env : LaneEnv) (target : Z) (elapsed : CDouble.double)
    (ps : list Poll) {struct ps} : Wait :=
  if CDouble.ltb elapsed (CDouble.of_Z target) then
    match ps with
    | [] => Pending
    | p :: ps' =>
        if poll_stop p then Stopped
        else busyWait env target (elapsedTime env (poll_counter p)) ps'
    end
  else Reached elapsed ps.

(** How a run of a lane thread ends: it returned after its last object,
    it returned on reading [stopClicking], it is still running when the
    polls end, or a jitter draw or an array access had no defined
    result. *)
Inductive Exit := Completed | Cancelled | Running | Undefined.

(** A run of a lane thread: the key events it injected, oldest first, the
    times it computed, the [keyStates] it leaves, and how it ended. *)
Record Run := {
  events : list KeyEvent;
  computed : list (Z * Z);
  keys_after : list KeyState.t;
  exit : Exit
}.

Definition stop_here (ks : list KeyState.t) (e : Exit) : Run :=
  {| events := []; computed := []; keys_after := ks; exit := e |}.

Definition emit (evs : list KeyEvent) (r : Run) : Run :=
  {| events := evs ++ events r; computed := computed r;
     keys_after := keys_after r; exit := exit r |}.

Definition note (t : Z * Z) (r : Run) : Run :=
  {| events := events r; computed := t :: computed r;
     keys_after := keys_after r; exit := exit r |}.

(** [if (data->enableClicking) { pressKey(keyState->key);
      keyState->is_pressed = TRUE; }] and its release twin. *)
Definition click (td : ThreadData.t) (down : bool) (ks : list KeyState.t)
  : option (list KeyEvent * list KeyState.t) :=
  if ThreadData.enableClicking td then
    s ← ks !! ThreadData.columnIndex td;
    Some ([(if down then KeyDown else KeyUp) (KeyState.key s)],
          <[ThreadData.columnIndex td := KeyState.with_is_pressed down s]> ks)
  else Some ([], ks).

(** The loop of [columnPlayer] from iteration [i] on, [objs] being
    [data->objects[i..count-1]]. *)
Fixpoint playFrom (td : ThreadData.t) (env : LaneEnv) (i : nat)
    (objs : list HitObject.t) (ps : list Poll) (ks : list KeyState.t) : Run :=
  match objs with
  | [] => stop_here ks Completed
  | obj :: rest =>
      match ps with
      | [] => stop_here ks Running
      | p :: ps1 =>
          if poll_stop p then stop_here ks Cancelled
          else
            match objectTimes (ThreadData.startTimeAdjustment td) obj
                              (head rest) (reads env i) with
            | None => stop_here ks Undefined
            | Some (pressTime, releaseTime) =>
                note (pressTime, releaseTime)
                match busyWait env pressTime
                               (elapsedTime env (poll_counter p)) ps1 with
                | Stopped => stop_here ks Cancelled
                | Pending => stop_here ks Running
                | Reached elapsed ps2 =>
                    match click td true ks with
                    | None => stop_here ks Undefined
                    | Some (down, ks1) =>
                        emit down
                        match busyWait env releaseTime elapsed ps2 with
                        | Stopped => stop_here ks1 Cancelled
                        | Pending => stop_here ks1 Running
                        | Reached _ ps3 =>
                            match click td false ks1 with
                            | None => stop_here ks1 Undefined
                            | Some (up, ks2) =>
                                emit up (playFrom td env (S i) rest ps3 ks2)
                            end
                        end
                    end
                end
            end
      end
  end.

Definition columnPlayer (td : ThreadData.t) (env : LaneEnv)
    (ks : list KeyState.t) : Run :=
  playFrom td env 0 (ThreadData.objects td) (polls env) ks.

End Program.

(** ** Session controller: the control operations *)

(** [for (i = ..; i < MAX_KEYS; i++) if (keyStates[i].is_pressed) {
      releaseKey(keyStates[i].key); keyStates[i].is_pressed = FALSE; }]
    with [n = MAX_KEYS - i] iterations left. *)
Fixpoint releaseKeysFrom (n i : nat) (ks : list KeyState.t)
  : list KeyEvent * list KeyState.t :=
  match n with
  | O => ([], ks)
  | S n' =>
      match ks !! i with
      | Some s =>
          if KeyState.is_pressed s then
            let '(evs, ks') :=
              releaseKeysFrom n' (S i)
                (<[i := KeyState.with_is_pressed false s]> ks) in
            (KeyUp (KeyState.key s) :: evs, ks')
          else releaseKeysFrom n' (S i) ks
      | None => releaseKeysFrom n' (S i) ks
      end
  end.

Definition releaseAllKeys (ks : list KeyState.t)
  : list KeyEvent * list KeyState.t :=
  releaseKeysFrom MAX_KEYS 0 ks.

Definition with_keyStates (ks : list KeyState.t) (g : Globals) : Globals :=
  {| stopClicking := stopClicking g; timingShift := timingShift g;
     offset := offset g; keyStates := ks |}.

Definition setStopClicking (value : bool) (g : Globals)
  : list KeyEvent * Globals :=
  let g1 := {| stopClicking := value; timingShift := timingShift g;
               offset := offset g; keyStates := keyStates g |} in
  let '(evs, ks) := releaseAllKeys (keyStates g1) in
  (evs, with_keyStates ks g1).

Definition StopProgram (g : Globals) : bool := stopClicking g.

Definition setTimingShift (value : Z) (g : Globals) : Globals :=
  {| stopClicking := stopClicking g; timingShift := value;
     offset := offset g; keyStates := keyStates g |}.

Definition setOffset (value : Z) (g : Globals) : Globals :=
  {| stopClicking := stopClicking g; timingShift := timingShift g;
     offset := value; keyStates := keyStates g |}.

(** ** The lane player and the stop operation as two threads *)

(** What the threads share: the globals, and the input events injected so
    far, oldest first. *)
Record World := { globals : Globals; injected : list KeyEvent }.

Definition with_globals (g : Globals) (w : World) : World :=
  {| globals := g; injected := injected w |}.

Definition inject (evs : list KeyEvent) (w : World) : World :=
  {| globals := globals w; injected := injected w ++ evs |}.

(** Where a lane thread stands in [columnPlayer]: at the head of the
    [for] loop (line 109), at the test of the press wait (line 128), at
    the press (line 134), at the test of the release wait (line 139), at
    the release (line 145), or past a [return]. *)
Inductive LanePoint :=
  | AtObject (i : nat)
  | AtPressWait (i : nat) (pressTime releaseTime : Z)
                (elapsed : CDouble.double)
  | AtPress (i : nat) (releaseTime : Z) (elapsed : CDouble.double)
  | AtReleaseWait (i : nat) (releaseTime : Z) (elapsed : CDouble.double)
  | AtRelease (i : nat)
  | Returned (e : Exit).

(** A lane thread: where it stands, and the values its next calls of
    [QueryPerformanceCounter] return. *)
Record LaneThread := { point : LanePoint; counters : list Z }.

Definition at_point (pt : LanePoint) (th : LaneThread) : LaneThread :=
  {| point := pt; counters := counters th |}.

(** Where the host thread stands in [setStopClicking(value)]: at the
    store to the flag (line 164), in [releaseAllKeys] at the head of
    iteration [i] (line 155), or back from the call. *)
Inductive HostPoint :=
  | AtSetStop (value : bool)
  | AtScan (i : nat)
  | HostDone.

Section Threads.

Variable P : Platform.
Variable td : ThreadData.t.
Variable env : LaneEnv.

(** The state of the random source when the lane thread starts. *)
Variable s : RandState.

(** [if (stopClicking) return 0; QueryPerformanceCounter(&currentTime);
    elapsedTime = ...;] then on to the point [next elapsedTime]. *)
Definition pollStep (w : World) (th : LaneThread)
    (next : CDouble.double -> LanePoint) : LaneThread :=
  if stopClicking (globals w) then at_point (Returned Cancelled) th
  else
    match counters th with
    | [] => at_point (Returned Running) th
    | c :: cs => {| point := next (elapsedTime env c); counters := cs |}
    end.

(** [if (data->enableClicking) { pressKey / releaseKey; is_pressed = ..; }]
    on the shared [keyStates], then on to the point [next]. *)
Definition clickStep (down : bool) (w : World) (th : LaneThread)
    (next : LanePoint) : LaneThread * World :=
  match click td down (keyStates (globals w)) with
  | None => (at_point (Returned Undefined) th, w)
  | Some (evs, ks) =>
      (at_point next th, inject evs (with_globals (with_keyStates ks (globals w)) w))
  end.

(** One step of the lane thread.  The steps are: lines 109-126 (loop
    test, stop check, counter, the two draws and the two times); one
    test of a wait loop together with the iteration it admits (lines
    128-131, 139-142); the press (lines 134-137); the release (lines
    145-148). *)
Definition laneStep (th : LaneThread) (w : World) : LaneThread * World :=
  match point th with
  | AtObject i =>
      match ThreadData.objects td !! i with
      | None => (at_point (Returned Completed) th, w)
      | Some obj =>
          (pollStep w th (fun elapsed =>
             match objectTimes P (ThreadData.startTimeAdjustment td) obj
                     (ThreadData.objects td !! S i)
                     (quiet_reads (globals w) s i) with
             | None => Returned Undefined
             | Some (pressTime, releaseTime) =>
                 AtPressWait i pressTime releaseTime elapsed
             end), w)
      end
  | AtPressWait i pressTime releaseTime elapsed =>
      if CDouble.ltb elapsed (CDouble.of_Z pressTime) then
        (pollStep w th (AtPressWait i pressTime releaseTime), w)
      else (at_point (AtPress i releaseTime elapsed) th, w)
  | AtPress i releaseTime elapsed =>
      clickStep true w th (AtReleaseWait i releaseTime elapsed)
  | AtReleaseWait i releaseTime elapsed =>
      if CDouble.ltb elapsed (CDouble.of_Z releaseTime) then
        (pollStep w th (AtReleaseWait i releaseTime), w)
      else (at_point (AtRelease i) th, w)
  | AtRelease i => clickStep false w th (AtObject (S i))
  | Returned _ => (th, w)
  end.

End Threads.

(** One step of the host thread in [setStopClicking]: the store to the
    flag, or one iteration of the loop of [releaseAllKeys]. *)
Definition hostStep (h : HostPoint) (w : World) : HostPoint * World :=
  match h with
  | AtSetStop value =>
      (AtScan 0,
       with_globals
         {| stopClicking := value; timingShift := timingShift (globals w);
            offset := offset (globals w);
            keyStates := keyStates (globals w) |} w)
  | AtScan i =>
      if (i <? MAX_KEYS)%nat then
        let '(evs, ks) := releaseKeysFrom 1 i (keyStates (globals w)) in
        (AtScan (S i),
         inject evs (with_globals (with_keyStates ks (globals w)) w))
      else (HostDone, w)
  | HostDone => (HostDone, w)
  end.

Inductive Thread := Lane | Host.

Record Config := {
  lane_thread : LaneThread;
  host_point : HostPoint;
  world : World
}.

Section Interleaving.

Variable P : Platform.
Variable td : ThreadData.t.
Variable env : LaneEnv.
Variable s : RandState.

(** The thread [t] makes its next step. *)
Definition step (c : Config) (t : Thread) : Config :=
  match t with
  | Lane =>
      let '(th, w) := laneStep P td env s (lane_thread c) (world c) in
      {| lane_thread := th; host_point := host_point c; world := w |}
  | Host =>
      let '(h, w) := hostStep (host_point c) (world c) in
      {| lane_thread := lane_thread c; host_point := h; world := w |}
  end.

(** The two threads run in the order the schedule gives. *)
Definition interleave (schedule : list Thread) (c : Config) : Config :=
  foldl step c schedule.

End Interleaving.

(** The lane thread is started with the counter values [cs] ahead of it
    while the host is about to call [setStopClicking(value)]. *)
Definition started (cs : list Z) (value : bool) (g : Globals) : Config :=
  {| lane_thread := {| point := AtObject 0; counters := cs |};
     host_point := AtSetStop value;
     world := {| globals := g; injected := [] |} |}.

(** ** Column partitioner *)

(** [(int)((i + 0.5) * columnWidth)] with
    [columnWidth = 512.0 / expectedColumnCount]. *)
Definition laneCenter (expectedColumnCount i : Z) : option Z :=
  let columnWidth :=
    CDouble.div (CDouble.lit 512 0) (CDouble.of_Z expectedColumnCount) in
  CDouble.to_int
    (CDouble.mul (CDouble.add (CDouble.of_Z i) (CDouble.lit 1 (-1)))
                 columnWidth).

(** The [columns] the first branch of [clickHitObjects] fills in. *)
Definition explicitColumns (expectedColumnCount : Z) : option (list Z) :=
  mapM (laneCenter expectedColumnCount)
       (Z.of_nat <$> seq 0 (Z.to_nat expectedColumnCount)).

(** The inner loop of the second branch: is [x] among [columns]? *)
Fixpoint found (x : Z) (columns : list Z) : bool :=
  match columns with
  | [] => false
  | c :: rest => if c =? x then true else found x rest
  end.

(** One iteration of the outer loop of the second branch. *)
Definition scanObject (columns : list Z) (o : HitObject.t) : list Z :=
  if negb (found (HitObject.x o) columns)
     && (length columns <? MAX_KEYS)%nat
  then columns ++ [HitObject.x o]
  else columns.

(** The [columns] the second branch fills in, in discovery order. *)
Definition detectColumns (hitObjects : list HitObject.t) : list Z :=
  foldl scanObject [] hitObjects.

(** [columns] after the branch taken and the [qsort]. *)
Definition laneColumns (hitObjects : list HitObject.t)
    (expectedColumnCount : Z) : option (list Z) :=
  columns ←
    (if (0 <? expectedColumnCount)
        && (expectedColumnCount <=? Z.of_nat MAX_KEYS)
     then explicitColumns expectedColumnCount
     else Some (detectColumns hitObjects));
  Some (qsort compare_ints columns).

(** One iteration of the bucketing loop; [buckets] are the filled parts
    of [columnObjects], bucket [i] holding [columnCounts[i]] objects. *)
Definition bucketObject (columns : list Z)
    (buckets : list (list HitObject.t)) (o : HitObject.t)
  : list (list HitObject.t) :=
  let columnIndex := getKeyIndex (HitObject.x o) columns in
  if columnIndex =? -1 then buckets
  else
    match array_get buckets columnIndex with
    | Some b =>
        if Z.of_nat (length b) <? MAX_OBJECTS_PER_COLUMN
        then <[Z.to_nat columnIndex := b ++ [o]]> buckets
        else buckets
    | None => buckets
    end.

Definition columnObjects (columns : list Z) (hitObjects : list HitObject.t)
  : list (list HitObject.t) :=
  foldl (bucketObject columns) (replicate MAX_KEYS []) hitObjects.

(** [threadData[i]] for [i < columnCount]. *)
Definition threadData (buckets : list (list HitObject.t)) (columnCount : nat)
    (startTimeAdjustment : Z) (enableClicking : bool) (offset : Z)
  : list ThreadData.t :=
  (fun i =>
     {| ThreadData.objects := default [] (buckets !! i);
        ThreadData.columnIndex := i;
        ThreadData.startTimeAdjustment := startTimeAdjustment;
        ThreadData.enableClicking := enableClicking;
        ThreadData.offset := offset |}) <$> seq 0 columnCount.

Section Session.

Variable P : Platform.

(** [clickHitObjects] up to the thread creation: the globals after
    [setupKeyBindings] and the [ThreadData] of the lane players that are
    started, one per entry.  [hitObjects] holds the [count] objects of the
    host's array.  No result when a step has none. *)
Definition clickHitObjects_spawn (hitObjects : list HitObject.t)
    (unused1 unused2 startTimeAdjustment : Z) (enableClicking : bool)
    (offset expectedColumnCount : Z) (customKeys : option (list Z))
    (g : Globals) : option (Globals * list ThreadData.t) :=
  columns ← laneColumns hitObjects expectedColumnCount;
  let columnCount := length columns in
  ks ← setupKeyBindings P columns columnCount customKeys (keyStates g);
  Some (with_keyStates ks g,
        threadData (columnObjects columns hitObjects) columnCount
                   startTimeAdjustment enableClicking offset).

(** What one lane of a session did. *)
Record LaneReport := {
  lane : nat;
  lane_objects : list HitObject.t;
  lane_run : Run
}.

(** [clickHitObjects]: the lane players run, lane [i] in the surroundings
    [envs i]; each writes no entry of [keyStates] but its own, and is
    started on the array [setupKeyBindings] left. *)
Definition clickHitObjects (hitObjects : list HitObject.t)
    (unused1 unused2 startTimeAdjustment : Z) (enableClicking : bool)
    (offset expectedColumnCount : Z) (customKeys : option (list Z))
    (g : Globals) (envs : nat -> LaneEnv) : option (list LaneReport) :=
  match clickHitObjects_spawn hitObjects unused1 unused2 startTimeAdjustment
          enableClicking offset expectedColumnCount customKeys g with
  | None => None
  | Some (g', tds) =>
      Some ((fun td =>
               {| lane := ThreadData.columnIndex td;
                  lane_objects := ThreadData.objects td;
                  lane_run :=
                    columnPlayer P td (envs (ThreadData.columnIndex td))
                                 (keyStates g') |}) <$> tds)
  end.

End Session.

(** ** Vocabulary of the statements *)

(** The Box-Muller variate of one jitter draw. *)
Definition variate (P : Platform) (j : JitterRead) : CDouble.double :=
  boxMuller P (uniform P (source j 0%nat)) (uniform P (source j 1%nat)).

(** The keys whose [KeyState] reads pressed, in array order. *)
Definition pressed_keys (ks : list KeyState.t) : list Z :=
  KeyState.key <$> List.filter KeyState.is_pressed ks.

Definition is_up (k : Z) (e : KeyEvent) : bool :=
  match e with
  | KeyUp k' => k =? k'
  | KeyDown _ => false
  end.

(** Every key-down of the trace is followed by a key-up of its key. *)
Fixpoint all_released (evs : list KeyEvent) : bool :=
  match evs with
  | [] => true
  | KeyDown k :: rest => existsb (is_up k) rest && all_released rest
  | KeyUp _ :: rest => all_released rest
  end.

Definition with_polls (ps : list Poll) (env : LaneEnv) : LaneEnv :=
  {| frequency := frequency env; start_counter := start_counter env;
     reads := reads env; polls := ps |}.

Definition with_offset (v : Z) (td : ThreadData.t) : ThreadData.t :=
  {| ThreadData.objects := ThreadData.objects td;
     ThreadData.columnIndex := ThreadData.columnIndex td;
     ThreadData.startTimeAdjustment := ThreadData.startTimeAdjustment td;
     ThreadData.enableClicking := ThreadData.enableClicking td;
     ThreadData.offset := v |}.

Definition with_exit (e : Exit) (r : Run) : Run :=
  {| events := events r; computed := computed r;
     keys_after := keys_after r; exit := e |}.

(** Timestamps never decrease along the sequence. *)
Definition non_decreasing (objs : list HitObject.t) : Prop :=
  Sorted (fun a b => HitObject.timestamp a <= HitObject.timestamp b) objs.

(** The objects lane [i] is handed: those of the input whose position is
    first found at index [i] of [columns], in input order, up to the
    capacity of a bucket. *)
Definition lane_objects_of (columns : list Z) (i : nat)
    (hitObjects : list HitObject.t) : list HitObject.t :=
  take (Z.to_nat MAX_OBJECTS_PER_COLUMN)
       (filter (fun o => getKeyIndex (HitObject.x o) columns = Z.of_nat i)
               hitObjects).

(** The key of the middle lane and the nine key codes the default layout
    draws from, as they arrive in a [WORD]. *)
Definition center_key (P : Platform) : Z := CInt.to_word (VK_SPACE P).

Definition default_key_codes (P : Platform) : list Z :=
  [center_key P; 65; 83; 68; 70; 74; 75; 76;
   CInt.to_word (CInt.to_char (VK_OEM_1 P))].

(** Positions whose differences are all representable in [int]. *)
Definition small_position (v : Z) : Prop := - 2 ^ 30 <= v < 2 ^ 30.

(** Entry by entry, everything but the key is the same. *)
Definition same_but_keys (ks ks' : list KeyState.t) : Prop :=
  Forall2 (fun s s' => exists k, s' = KeyState.with_key k s) ks ks'.

(** Polls at which the stop flag reads clear, the counter returning the
    values [cs] in turn. *)
Definition clear_polls (cs : list Z) : list Poll :=
  (fun c => {| poll_stop := false; poll_counter := c |}) <$> cs.

(** The surroundings of a lane thread that runs with no other thread
    writing the globals [g]. *)
Definition quiet_env (env : LaneEnv) (g : Globals) (s : RandState)
    (cs : list Z) : LaneEnv :=
  {| frequency := frequency env; start_counter := start_counter env;
     reads := quiet_reads g s; polls := clear_polls cs |}.

(** ** Sample data *)

Definition tap (x timestamp : Z) : HitObject.t :=
  {| HitObject.x := x; HitObject.y := 192; HitObject.timestamp := timestamp;
     HitObject.object_type := 1; HitObject.end_time := 0 |}.

Definition hold (x timestamp end_time : Z) : HitObject.t :=
  {| HitObject.x := x; HitObject.y := 192; HitObject.timestamp := timestamp;
     HitObject.object_type := 128; HitObject.end_time := end_time |}.

(** A [log] with the pole of the C library at zero and the value [-1]
    elsewhere, a [cos] that is constantly [1], and MSVC's constants. *)
Definition sample_log (d : CDouble.double) : CDouble.double :=
  match d with
  | S754_zero _ => CDouble.neg_infinity
  | _ => CDouble.lit (-1) 0
  end.

Definition sample_cos (d : CDouble.double) : CDouble.double :=
  CDouble.lit 1 0.

Definition sample_platform : Platform := msvc sample_log sample_cos.

(** A random source whose first value is [r] and every later one 12345. *)
Definition sample_source (r : Z) : RandState :=
  fun n => match n with O => r | S _ => 12345 end.

(** Reads that find the amplitude [a] and the shift [s], and a random
    source about to return 1. *)
Definition sample_reads (a s : Z) : ObjectReads :=
  {| press_jitter := {| amplitude := a; source := sample_source 1 |};
     release_jitter := {| amplitude := a; source := sample_source 1 |};
     shift_at_press := s; shift_at_release := s |}.

(** The initial globals with the key of lane 2 bound to D and held. *)
Definition held_globals : Globals :=
  with_keyStates
    (<[2%nat := {| KeyState.key := 68; KeyState.press_time := 0;
                   KeyState.release_time := 0; KeyState.is_pressed := true |}]>
       (keyStates initial_globals))
    initial_globals.

(** A lane of one tap at 1000 ms, bound to entry 0 of [keyStates]. *)
Definition sample_lane : ThreadData.t :=
  {| ThreadData.objects := [tap 64 1000]; ThreadData.columnIndex := 0;
     ThreadData.startTimeAdjustment := 0; ThreadData.enableClicking := true;
     ThreadData.offset := 30 |}.

(** A counter of one tick per millisecond started at 0, with amplitude and
    shift 0 and no poll yet. *)
Definition sample_env : LaneEnv :=
  {| frequency := 1000; start_counter := 0;
     reads := fun _ => sample_reads 0 0; polls := [] |}.

(** [keyStates] after the default binding of four lanes: D F J K. *)
Definition sample_keyStates : list KeyState.t :=
  default [] (setupKeyBindings sample_platform [] 4 None
                               (keyStates initial_globals)).

(** A chart of three taps on two positions, and what [clickHitObjects]
    makes of it when it infers the lanes. *)
Definition sample_chart : list HitObject.t :=
  [tap 64 1000; tap 192 1000; tap 64 2000].

Definition sample_bound_globals : Globals :=
  with_keyStates
    (default [] (setupKeyBindings sample_platform [64; 192] 2 None
                                  (keyStates initial_globals)))
    initial_globals.

Definition sample_threads : list ThreadData.t :=
  threadData (columnObjects [64; 192] sample_chart) 2 0 true 30.

(** A chart that visits ten positions. *)
Definition wide_chart : list HitObject.t :=
  (fun v => tap v 0) <$> [10; 20; 30; 40; 50; 60; 70; 80; 90; 100].

(** The sample lane with clicking disabled. *)
Definition sample_dry_lane : ThreadData.t :=
  {| ThreadData.objects := [tap 64 1000]; ThreadData.columnIndex := 0;
     ThreadData.startTimeAdjustment := 0; ThreadData.enableClicking := false;
     ThreadData.offset := 30 |}.

(** Polls of a counter that passes 1000 and 1051 ticks, the stop flag
    reading clear. *)
Definition sample_polls : list Poll :=
  [{| poll_stop := false; poll_counter := 0 |};
   {| poll_stop := false; poll_counter := 1000 |};
   {| poll_stop := false; poll_counter := 1051 |}].

(** Surroundings in which the stop flag reads set from the start. *)
Definition stopped_env : LaneEnv :=
  with_polls [{| poll_stop := true; poll_counter := 0 |}] sample_env.

(** The globals when the sample lane starts: four lanes bound, amplitude
    set to 0. *)
Definition sample_session_globals : Globals :=
  setOffset 0 (with_keyStates sample_keyStates initial_globals).

(** Reads that find the amplitude 0 and the shift 0, and a random source
    about to return 0 to the press draw. *)
Definition pole_reads : ObjectReads :=
  {| press_jitter := {| amplitude := 0; source := sample_source 0 |};
     release_jitter := {| amplitude := 0; source := sample_source 1 |};
     shift_at_press := 0; shift_at_release := 0 |}.

(** * Properties *)

(** ** Machine arithmetic *)

Lemma wrap_small w z :
  0 < w -> - 2 ^ (w - 1) <= z < 2 ^ (w - 1) -> CInt.wrap w z = z.
Proof.
  intros Hw Hz. unfold CInt.wrap.
  assert (H2 : 2 ^ w = 2 * 2 ^ (w - 1)).
  { replace w with (Z.succ (w - 1)) at 1 by lia. apply Z.pow_succ_r. lia. }
  rewrite Z.mod_small; lia.
Qed.

Lemma int_sub_small a b :
  - 2 ^ 31 <= a - b < 2 ^ 31 -> CInt.sub a b = a - b.
Proof. intros H. unfold CInt.sub. apply wrap_small; [lia | exact H]. Qed.

Lemma int_add_small a b :
  - 2 ^ 31 <= a + b < 2 ^ 31 -> CInt.add a b = a + b.
Proof. intros H. unfold CInt.add. apply wrap_small; [lia | exact H]. Qed.

(** ** Jitter generator *)

Section JitterFacts.

Variable P : Platform.

Lemma draw_variate j :
  draw P j =
  CDouble.to_int
    (CDouble.div (CDouble.mul (variate P j) (CDouble.of_Z (amplitude j)))
                 (CDouble.lit 3 0)).
Proof. reflexivity. Qed.

(** A finite variate scaled by the amplitude 0 is a zero. *)
Lemma draw_zero_amplitude j :
  amplitude j = 0 -> CDouble.is_finite (variate P j) = true -> draw P j = Some 0.
Proof.
  intros Ha Hf. rewrite draw_variate, Ha.
  destruct (variate P j); try discriminate; reflexivity.
Qed.

(** C4.  [generateBellCurveOffset] has a single path.  Whatever the state
    of the random source, it draws from it exactly twice; when the first
    uniform draw [u1] is exactly 0 it neither tests nor replaces it but
    hands it to [log], and with the C library's pole ([log(0) = -inf])
    the variate is infinite or NaN for every second draw and every
    amplitude, so the cast to [int] has no defined result. *)
Theorem generateBellCurveOffset_log_of_zero (maxOffset : Z) (s : RandState) :
  uniform P (s 0%nat) = CDouble.pos_zero ->
  log P CDouble.pos_zero = CDouble.neg_infinity ->
  boxMuller P (uniform P (s 0%nat)) (uniform P (s 1%nat)) =
    CDouble.mul
      (CDouble.sqrt
         (CDouble.mul (CDouble.lit (-2) 0) (log P CDouble.pos_zero)))
      (cos P (CDouble.mul (CDouble.mul (CDouble.lit 2 0) PI)
                          (uniform P (s 1%nat))))
  /\ generateBellCurveOffset P maxOffset s = (None, advance 2 s).
Proof.
  intros Hu Hl. unfold generateBellCurveOffset, boxMuller, rand.
  rewrite Hu, Hl.
  change (CDouble.sqrt (CDouble.mul (CDouble.lit (-2) 0) CDouble.neg_infinity))
    with (S754_infinity false).
  split; [reflexivity|].
  change (fun n => s (S (S n))) with (advance 2 s). f_equal.
  destruct (cos P _) as [b|b| |b m e];
    destruct (CDouble.of_Z maxOffset) as [b'|b'| |b' m' e']; reflexivity.
Qed.

End JitterFacts.

Lemma generateBellCurveOffset_log_of_zero_witness :
  generateBellCurveOffset sample_platform 30 (sample_source 0)
  = (None, advance 2 (sample_source 0)).
Proof.
  apply (generateBellCurveOffset_log_of_zero sample_platform 30
           (sample_source 0)); reflexivity.
Defined.

(** ** Press and release times *)

Section TimeFacts.

Variable P : Platform.

(** The conflict clamp of [objectTimes], on its own. *)
Lemma clamp_le (releaseTime limit : Z) :
  (if releaseTime >? limit then limit else releaseTime) <= limit.
Proof. destruct (Z.gtb_spec releaseTime limit); lia. Qed.

(** C2, as the code has it.  When the object has a successor in its lane,
    its release time after the clamp is at most the successor's chart
    time less the start adjustment less 5 ms, for all jitter draws and
    timing shifts.  The bound is the successor's time before jitter and
    shift: the successor's own press time may lie below it. *)
Theorem release_before_next_chart_time (startTimeAdjustment : Z)
    (obj next : HitObject.t) (r : ObjectReads) (pressTime releaseTime : Z) :
  objectTimes P startTimeAdjustment obj (Some next) r
    = Some (pressTime, releaseTime) ->
  releaseTime <=
    CInt.sub (CInt.sub (HitObject.timestamp next) startTimeAdjustment) 5.
Proof.
  unfold objectTimes. intros H.
  destruct (draw P (press_jitter r)) as [pressOffset|]; [|discriminate].
  destruct (draw P (release_jitter r)) as [releaseOffset|]; [|discriminate].
  cbn in H. injection H as _ <-. apply clamp_le.
Qed.

(** Away from the pole of [log] the times are the expected ones.  With
    jitter amplitude 0, timing shift 0 and start adjustment 0, whenever
    the two variates drawn are finite: a tap note at 1000 with no
    successor is pressed at 1000 and released at 1050; a hold note from
    1000 to 1400 whose lane has no successor before 1405 is pressed at
    1000 and released at 1400. *)
Theorem isolated_note_times (r : ObjectReads) (o : HitObject.t)
    (nextObj : option HitObject.t) :
  amplitude (press_jitter r) = 0 ->
  amplitude (release_jitter r) = 0 ->
  shift_at_press r = 0 ->
  shift_at_release r = 0 ->
  CDouble.is_finite (variate P (press_jitter r)) = true ->
  CDouble.is_finite (variate P (release_jitter r)) = true ->
  HitObject.timestamp o = 1000 ->
  (HitObject.object_type o <> 128 ->
   objectTimes P 0 o None r = Some (1000, 1050))
  /\ (HitObject.object_type o = 128 ->
      HitObject.end_time o = 1400 ->
      (forall next, nextObj = Some next ->
                    1405 <= HitObject.timestamp next <= CInt.max_int) ->
      objectTimes P 0 o nextObj r = Some (1000, 1400)).
Proof.
  intros Hap Har Hsp Hsr Hfp Hfr Hts.
  unfold objectTimes.
  rewrite (draw_zero_amplitude P _ Hap Hfp), (draw_zero_amplitude P _ Har Hfr).
  rewrite Hsp, Hsr, Hts. cbn [mbind option_bind].
  split.
  - intros Hty. apply Z.eqb_neq in Hty. rewrite Hty. reflexivity.
  - intros Hty Hend Hnext. rewrite Hty, Hend. cbn [Z.eqb Pos.eqb].
    change (CInt.add (CInt.add (CInt.sub 1000 0) 0) 0) with 1000.
    change (CInt.add (CInt.add (CInt.sub 1400 0) 0) 0) with 1400.
    destruct nextObj as [next|]; [|reflexivity].
    specialize (Hnext next eq_refl). unfold CInt.max_int in Hnext.
    rewrite (int_sub_small (HitObject.timestamp next) 0) by lia.
    rewrite int_sub_small by lia.
    destruct (Z.gtb_spec 1400 (HitObject.timestamp next - 0 - 5)); [lia|].
    reflexivity.
Qed.

(** A draw whose first uniform value is exactly 0 has no result, whatever
    the amplitude. *)
Lemma draw_at_log_pole (j : JitterRead) :
  log P CDouble.pos_zero = CDouble.neg_infinity ->
  uniform P (source j 0%nat) = CDouble.pos_zero ->
  draw P j = None.
Proof.
  intros Hl Hu. unfold draw, generateBellCurveOffset, boxMuller, rand.
  cbn [fst]. rewrite Hu, Hl.
  change (CDouble.sqrt (CDouble.mul (CDouble.lit (-2) 0) CDouble.neg_infinity))
    with (S754_infinity false).
  destruct (cos P _) as [b|b| |b m e];
    destruct (CDouble.of_Z (amplitude j)) as [b'|b'| |b' m' e']; reflexivity.
Qed.

(** C5.  The times of a note are not always those the specification
    gives.  [columnPlayer] draws its two offsets even when the amplitude
    is 0, and when [rand()] returns 0 for the first value of either draw
    the offset is the cast of a NaN: with the C library's pole
    ([log(0) = -inf]) the note has no defined press and release time -
    for every amplitude, shift and start adjustment, so also for the tap
    at 1000 and the hold from 1000 to 1400 with all three at 0. *)
Theorem isolated_note_times_at_log_pole (r : ObjectReads)
    (startTimeAdjustment : Z) (o : HitObject.t)
    (nextObj : option HitObject.t) :
  log P CDouble.pos_zero = CDouble.neg_infinity ->
  uniform P (source (press_jitter r) 0%nat) = CDouble.pos_zero
  \/ uniform P (source (release_jitter r) 0%nat) = CDouble.pos_zero ->
  objectTimes P startTimeAdjustment o nextObj r = None
  /\ objectTimes P startTimeAdjustment o nextObj r <> Some (1000, 1050)
  /\ objectTimes P startTimeAdjustment o nextObj r <> Some (1000, 1400).
Proof.
  intros Hl Hu.
  assert (Hnone : objectTimes P startTimeAdjustment o nextObj r = None).
  { unfold objectTimes. destruct Hu as [Hu|Hu].
    - rewrite (draw_at_log_pole _ Hl Hu). reflexivity.
    - rewrite (draw_at_log_pole (release_jitter r) Hl Hu).
      destruct (draw P (press_jitter r)); reflexivity. }
  rewrite Hnone. repeat split; discriminate.
Qed.

End TimeFacts.

Lemma release_before_next_chart_time_witness :
  950 <= CInt.sub (CInt.sub (HitObject.timestamp (tap 64 1010)) 0) 5.
Proof.
  apply (release_before_next_chart_time sample_platform 0 (tap 64 1000)
           (tap 64 1010) (sample_reads 0 (-100)) 900 950).
  vm_compute. reflexivity.
Defined.

(** C2 as stated fails: with amplitude 0 and a timing shift of -100 ms,
    a tap at 1000 followed by a tap at 1010 is released at 950, while the
    second tap is pressed at 910. *)
Lemma release_after_next_press :
  objectTimes sample_platform 0 (tap 64 1000) (Some (tap 64 1010))
              (sample_reads 0 (-100)) = Some (900, 950)
  /\ objectTimes sample_platform 0 (tap 64 1010) None
                 (sample_reads 0 (-100)) = Some (910, 960)
  /\ ~ 950 <= 910 - 5.
Proof. repeat split; [vm_compute; reflexivity ..|lia]. Qed.

Lemma isolated_note_times_witness :
  objectTimes sample_platform 0 (tap 64 1000) None (sample_reads 0 0)
    = Some (1000, 1050)
  /\ objectTimes sample_platform 0 (hold 64 1000 1400) (Some (tap 64 1500))
                 (sample_reads 0 0) = Some (1000, 1400).
Proof.
  split.
  - apply (isolated_note_times sample_platform (sample_reads 0 0)
             (tap 64 1000) None); try reflexivity.
    discriminate.
  - apply (isolated_note_times sample_platform (sample_reads 0 0)
             (hold 64 1000 1400) (Some (tap 64 1500))); try reflexivity.
    intros next [= <-]. cbn. unfold CInt.max_int. lia.
Defined.

Lemma isolated_note_times_at_log_pole_witness :
  objectTimes sample_platform 0 (tap 64 1000) None pole_reads = None
  /\ objectTimes sample_platform 0 (hold 64 1000 1400) None pole_reads = None.
Proof.
  split.
  - apply (isolated_note_times_at_log_pole sample_platform pole_reads 0
             (tap 64 1000) None); [reflexivity|left; reflexivity].
  - apply (isolated_note_times_at_log_pole sample_platform pole_reads 0
             (hold 64 1000 1400) None); [reflexivity|left; reflexivity].
Defined.

(** ** Control operations *)

Lemma with_is_pressed_id s :
  KeyState.is_pressed s = false -> KeyState.with_is_pressed false s = s.
Proof. destruct s as [k p r b]. cbn. intros ->. reflexivity. Qed.

Lemma releaseKeysFrom_spec (l2 l1 : list KeyState.t) :
  releaseKeysFrom (length l2) (length l1) (l1 ++ l2) =
  (KeyUp <$> pressed_keys l2, l1 ++ (KeyState.with_is_pressed false <$> l2)).
Proof.
  revert l1. induction l2 as [|s l2 IH]; intros l1.
  - reflexivity.
  - cbn [length releaseKeysFrom].
    rewrite list_lookup_middle by reflexivity.
    assert (Hstep : forall s', l1 ++ s' :: l2 = (l1 ++ [s']) ++ l2)
      by (intros; rewrite <- app_assoc; reflexivity).
    assert (Hlen : forall s', S (length l1) = length (l1 ++ [s']))
      by (intros; rewrite length_app; cbn; lia).
    unfold pressed_keys. cbn [List.filter].
    destruct (KeyState.is_pressed s) eqn:Hs.
    + rewrite insert_app_r_alt by lia. rewrite Nat.sub_diag.
      cbn [insert list_insert].
      rewrite (Hstep (KeyState.with_is_pressed false s)),
        (Hlen (KeyState.with_is_pressed false s)), IH.
      rewrite <- app_assoc. reflexivity.
    + rewrite (Hstep s), (Hlen s), IH. rewrite <- app_assoc.
      cbn [fmap list_fmap]. rewrite (with_is_pressed_id s Hs). reflexivity.
Qed.

Lemma releaseAllKeys_spec ks :
  length ks = MAX_KEYS ->
  releaseAllKeys ks =
  (KeyUp <$> pressed_keys ks, KeyState.with_is_pressed false <$> ks).
Proof.
  intros H. unfold releaseAllKeys. rewrite <- H.
  apply (releaseKeysFrom_spec ks []).
Qed.

Lemma pressed_keys_released ks :
  pressed_keys (KeyState.with_is_pressed false <$> ks) = [].
Proof. induction ks as [|s ks IH]; [reflexivity|exact IH]. Qed.

(** ** Lane player *)

Section PlayerFacts.
Variable P : Platform.
Variable td : ThreadData.t.
Variable env : LaneEnv.

Lemma busyWait_stopped_app target e ps q :
  busyWait env target e ps = Stopped -> busyWait env target e (ps ++ q) = Stopped.
Proof.
  revert e. induction ps as [|p ps IH]; intros e; cbn.
  - destruct (CDouble.ltb _ _); discriminate.
  - destruct (CDouble.ltb _ _); [|discriminate].
    destruct (poll_stop p); [reflexivity|]. apply IH.
Qed.

Lemma busyWait_reached_app target e ps q e' rest :
  busyWait env target e ps = Reached e' rest ->
  busyWait env target e (ps ++ q) = Reached e' (rest ++ q).
Proof.
  revert e. induction ps as [|p ps IH]; intros e; cbn.
  - destruct (CDouble.ltb _ _) eqn:Hlt; [discriminate|].
    intros [= <- <-]. destruct q; cbn; rewrite Hlt; reflexivity.
  - destruct (CDouble.ltb _ _) eqn:Hlt.
    + destruct (poll_stop p); [discriminate|]. apply IH.
    + intros [= <- <-]. reflexivity.
Qed.

Lemma busyWait_pending_stop target e ps p post :
  busyWait env target e ps = Pending -> poll_stop p = true ->
  busyWait env target e (ps ++ p :: post) = Stopped.
Proof.
  intros H Hp. revert e H. induction ps as [|q ps IH]; intros e; cbn.
  - destruct (CDouble.ltb _ _); [|discriminate]. rewrite Hp. reflexivity.
  - destruct (CDouble.ltb _ _); [|discriminate].
    destruct (poll_stop q); [discriminate|]. apply IH.
Qed.

Lemma playFrom_observes_stop p post objs :
  poll_stop p = true ->
  forall i ps ks,
    exit (playFrom P td env i objs ps ks) = Running ->
    playFrom P td env i objs (ps ++ p :: post) ks =
    with_exit Cancelled (playFrom P td env i objs ps ks).
Proof.
  intros Hp. induction objs as [|obj rest IH]; intros i ps ks; [discriminate|].
  cbn [playFrom]. destruct ps as [|q ps1].
  - intros _. cbn. rewrite Hp. reflexivity.
  - cbn [app]. destruct (poll_stop q); [discriminate|].
    destruct (objectTimes _ _ _ _ _) as [[pressTime releaseTime]|]; [|discriminate].
    destruct (busyWait env pressTime _ ps1) as [e2 ps2| |] eqn:Hw1;
      [|discriminate|].
    + rewrite (busyWait_reached_app _ _ _ (p :: post) _ _ Hw1).
      destruct (click td true ks) as [[down ks1]|]; [|discriminate].
      destruct (busyWait env releaseTime e2 ps2) as [e3 ps3| |] eqn:Hw2;
        [|discriminate|].
      * rewrite (busyWait_reached_app _ _ _ (p :: post) _ _ Hw2).
        destruct (click td false ks1) as [[up ks2]|]; [|discriminate].
        cbn. intros Hrun. rewrite (IH _ _ _ Hrun). reflexivity.
      * intros _. rewrite (busyWait_pending_stop _ _ _ _ post Hw2 Hp). reflexivity.
    + intros _. rewrite (busyWait_pending_stop _ _ _ _ post Hw1 Hp). reflexivity.
Qed.

Lemma click_length down ks evs ks' :
  click td down ks = Some (evs, ks') -> length ks' = length ks.
Proof.
  unfold click. destruct (ThreadData.enableClicking td).
  - destruct (ks !! _); cbn; [|discriminate]. intros [= _ <-]. apply length_insert.
  - intros [= _ <-]. reflexivity.
Qed.

Lemma playFrom_length objs :
  forall i ps ks, length (keys_after (playFrom P td env i objs ps ks)) = length ks.
Proof.
  induction objs as [|obj rest IH]; intros i ps ks; [reflexivity|].
  cbn [playFrom]. destruct ps as [|q ps1]; [reflexivity|].
  destruct (poll_stop q); [reflexivity|].
  destruct (objectTimes _ _ _ _ _) as [[pressTime releaseTime]|]; [|reflexivity].
  destruct (busyWait env pressTime _ ps1) as [e2 ps2| |]; try reflexivity.
  destruct (click td true ks) as [[down ks1]|] eqn:Hc1; [|reflexivity].
  apply click_length in Hc1.
  destruct (busyWait env releaseTime e2 ps2) as [e3 ps3| |]; try (cbn; congruence).
  destruct (click td false ks1) as [[up ks2]|] eqn:Hc2; [|cbn; congruence].
  apply click_length in Hc2. cbn. rewrite IH. congruence.
Qed.

Lemma playFrom_trace tail objs :
  all_released tail = true ->
  forall i ps ks,
    (forall s, keys_after (playFrom P td env i objs ps ks)
                 !! ThreadData.columnIndex td = Some s ->
               KeyState.is_pressed s = true ->
               existsb (is_up (KeyState.key s)) tail = true) ->
    all_released (events (playFrom P td env i objs ps ks) ++ tail) = true.
Proof.
  intros Htail. induction objs as [|obj rest IH]; intros i ps ks; [intros _; exact Htail|].
  cbn [playFrom]. destruct ps as [|q ps1]; [intros _; exact Htail|].
  destruct (poll_stop q); [intros _; exact Htail|].
  destruct (objectTimes _ _ _ _ _) as [[pressTime releaseTime]|]; [|intros _; exact Htail].
  destruct (busyWait env pressTime _ ps1) as [e2 ps2| |]; try (intros _; exact Htail).
  unfold click. destruct (ThreadData.enableClicking td).
  - destruct (ks !! ThreadData.columnIndex td) as [s|] eqn:Hs; cbn [mbind option_bind];
      [|intros _; exact Htail].
    assert (Hlt : (ThreadData.columnIndex td < length ks)%nat)
      by (apply lookup_lt_is_Some; eauto).
    rewrite list_lookup_insert_eq by exact Hlt. cbn [mbind option_bind].
    destruct (busyWait env releaseTime e2 ps2) as [e3 ps3| |].
    + cbn. rewrite Z.eqb_refl. cbn. apply IH.
    + cbn. intros H. rewrite Htail, andb_true_r.
      apply (H (KeyState.with_is_pressed true s)); [|reflexivity].
      apply list_lookup_insert_eq. exact Hlt.
    + cbn. intros H. rewrite Htail, andb_true_r.
      apply (H (KeyState.with_is_pressed true s)); [|reflexivity].
      apply list_lookup_insert_eq. exact Hlt.
  - destruct (busyWait env releaseTime e2 ps2) as [e3 ps3| |];
      try (intros _; exact Htail).
    cbn. apply IH.
Qed.

End PlayerFacts.

Lemma all_released_ups l : all_released (KeyUp <$> l) = true.
Proof. induction l; [reflexivity|exact IHl]. Qed.

Lemma pressed_key_is_released ks : forall i s,
  ks !! i = Some s -> KeyState.is_pressed s = true ->
  existsb (is_up (KeyState.key s)) (KeyUp <$> pressed_keys ks) = true.
Proof.
  unfold pressed_keys.
  induction ks as [|s0 ks IH]; intros i s; [discriminate|].
  destruct i as [|i]; cbn.
  - intros [= ->] ->. cbn. rewrite Z.eqb_refl. reflexivity.
  - intros Hs Hp. destruct (KeyState.is_pressed s0); cbn.
    + rewrite (IH i s Hs Hp). apply orb_true_r.
    + apply (IH i s Hs Hp).
Qed.

(** The sample lane played to its end: the key goes down at the first poll
    at or after 1000 ms and up at the first poll at or after 1050 ms. *)
Example sample_lane_completes :
  let r :=
    columnPlayer sample_platform sample_lane
      (with_polls [{| poll_stop := false; poll_counter := 0 |};
                   {| poll_stop := false; poll_counter := 999 |};
                   {| poll_stop := false; poll_counter := 1000 |};
                   {| poll_stop := false; poll_counter := 1049 |};
                   {| poll_stop := false; poll_counter := 1051 |}]
                  sample_env)
      sample_keyStates in
  events r = [KeyDown 68; KeyUp 68]
  /\ computed r = [(1000, 1050)]
  /\ exit r = Completed
  /\ pressed_keys (keys_after r) = [].
Proof. vm_compute. repeat split; reflexivity. Qed.

Section CancellationFacts.

Variable P : Platform.
Variable td : ThreadData.t.

Lemma busyWait_with_polls env ps' target e ps :
  busyWait (with_polls ps' env) target e ps = busyWait env target e ps.
Proof.
  revert e. induction ps as [|p ps IH]; intros e; cbn; [reflexivity|].
  destruct (CDouble.ltb _ _); [|reflexivity].
  destruct (poll_stop p); [reflexivity|]. apply IH.
Qed.

Lemma playFrom_with_polls env ps' objs :
  forall i ps ks,
    playFrom P td (with_polls ps' env) i objs ps ks =
    playFrom P td env i objs ps ks.
Proof.
  induction objs as [|obj rest IH]; intros i ps ks; [reflexivity|].
  cbn [playFrom]. destruct ps as [|q ps1]; [reflexivity|].
  destruct (poll_stop q); [reflexivity|].
  change (reads (with_polls ps' env)) with (reads env).
  change (elapsedTime (with_polls ps' env)) with (elapsedTime env).
  destruct (objectTimes _ _ _ _ _) as [[pressTime releaseTime]|]; [|reflexivity].
  rewrite busyWait_with_polls.
  destruct (busyWait env pressTime _ ps1) as [e2 ps2| |]; try reflexivity.
  destruct (click td true ks) as [[down ks1]|]; [|reflexivity].
  rewrite busyWait_with_polls.
  destruct (busyWait env releaseTime e2 ps2) as [e3 ps3| |]; try reflexivity.
  destruct (click td false ks1) as [[up ks2]|]; [|reflexivity].
  rewrite IH. reflexivity.
Qed.

Lemma columnPlayer_with_polls env ps ks :
  columnPlayer P td (with_polls ps env) ks =
  playFrom P td env 0 (ThreadData.objects td) ps ks.
Proof. unfold columnPlayer. apply playFrom_with_polls. Qed.

(** The stop operation after the player has returned.  Let a lane player
    have consumed the polls [pre] and be about to poll again - at the
    per-object check or in either busy-wait loop - and let that poll [p]
    read the stop flag set.  Then it returns at
    once: whatever polls [post] would have followed, its run is the run
    over [pre] with exit [Cancelled], so no key event is added.  The stop
    operation's [releaseAllKeys], run on the [keyStates] the player
    leaves, injects a key-up for exactly the keys whose state reads
    pressed and clears every flag, and in the player's trace followed by
    these key-ups every key-down has a later key-up of its key. *)
Theorem cancelled_player_is_released (env : LaneEnv) (pre post : list Poll)
    (p : Poll) (ks : list KeyState.t) :
  length ks = MAX_KEYS ->
  poll_stop p = true ->
  exit (columnPlayer P td (with_polls pre env) ks) = Running ->
  columnPlayer P td (with_polls (pre ++ p :: post) env) ks =
    with_exit Cancelled (columnPlayer P td (with_polls pre env) ks)
  /\ (releaseAllKeys
        (keys_after (columnPlayer P td (with_polls (pre ++ p :: post) env) ks))).1
     = KeyUp <$>
         pressed_keys
           (keys_after (columnPlayer P td (with_polls (pre ++ p :: post) env) ks))
  /\ all_released
       (events (columnPlayer P td (with_polls (pre ++ p :: post) env) ks)
        ++ (releaseAllKeys
              (keys_after
                 (columnPlayer P td (with_polls (pre ++ p :: post) env) ks))).1)
     = true
  /\ pressed_keys
       (releaseAllKeys
          (keys_after
             (columnPlayer P td (with_polls (pre ++ p :: post) env) ks))).2
     = [].
Proof.
  intros Hlen Hp Hrun.
  rewrite !columnPlayer_with_polls in *.
  set (r := playFrom P td env 0 (ThreadData.objects td) (pre ++ p :: post) ks).
  assert (Hr : length (keys_after r) = MAX_KEYS)
    by (unfold r; rewrite playFrom_length; exact Hlen).
  rewrite (releaseAllKeys_spec _ Hr). cbn [fst snd].
  split; [apply playFrom_observes_stop; assumption|].
  split; [reflexivity|].
  split; [|apply pressed_keys_released].
  apply playFrom_trace; [apply all_released_ups|].
  intros s Hs Hpressed. exact (pressed_key_is_released _ _ _ Hs Hpressed).
Qed.

End CancellationFacts.

Lemma cancelled_player_is_released_witness :
  columnPlayer sample_platform sample_lane
    (with_polls ([{| poll_stop := false; poll_counter := 0 |};
                  {| poll_stop := false; poll_counter := 1000 |}]
                 ++ {| poll_stop := true; poll_counter := 1001 |}
                    :: [{| poll_stop := false; poll_counter := 1060 |}])
                sample_env)
    sample_keyStates
  = with_exit Cancelled
      (columnPlayer sample_platform sample_lane
         (with_polls [{| poll_stop := false; poll_counter := 0 |};
                      {| poll_stop := false; poll_counter := 1000 |}]
                     sample_env)
         sample_keyStates).
Proof.
  assert (Hrun :
    exit (columnPlayer sample_platform sample_lane
            (with_polls [{| poll_stop := false; poll_counter := 0 |};
                         {| poll_stop := false; poll_counter := 1000 |}]
                        sample_env)
            sample_keyStates) = Running) by (vm_compute; reflexivity).
  exact (proj1 (cancelled_player_is_released sample_platform sample_lane
                  sample_env
                  [{| poll_stop := false; poll_counter := 0 |};
                   {| poll_stop := false; poll_counter := 1000 |}]
                  [{| poll_stop := false; poll_counter := 1060 |}]
                  {| poll_stop := true; poll_counter := 1001 |}
                  sample_keyStates eq_refl eq_refl Hrun)).
Defined.

Lemma setStopClicking_spec (value : bool) (g : Globals) :
  length (keyStates g) = MAX_KEYS ->
  setStopClicking value g =
  (KeyUp <$> pressed_keys (keyStates g),
   {| stopClicking := value; timingShift := timingShift g;
      offset := offset g;
      keyStates := KeyState.with_is_pressed false <$> keyStates g |}).
Proof.
  intros Hlen. unfold setStopClicking. cbn [keyStates].
  rewrite (releaseAllKeys_spec _ Hlen). reflexivity.
Qed.

(** C10.  [setStopClicking(value)] stores [value] in the stop flag
    whatever it is, injects a key-up for every key whose state reads
    pressed, in array order, and clears those flags, leaving the keys and
    the two tunables as they were; called again, with any value, it
    injects nothing. *)
Theorem setStopClicking_releases_held_keys (value : bool) (g : Globals) :
  length (keyStates g) = MAX_KEYS ->
  stopClicking (setStopClicking value g).2 = value
  /\ (setStopClicking value g).1 = KeyUp <$> pressed_keys (keyStates g)
  /\ keyStates (setStopClicking value g).2
     = KeyState.with_is_pressed false <$> keyStates g
  /\ pressed_keys (keyStates (setStopClicking value g).2) = []
  /\ timingShift (setStopClicking value g).2 = timingShift g
  /\ offset (setStopClicking value g).2 = offset g
  /\ forall value',
       (setStopClicking value' (setStopClicking value g).2).1 = [].
Proof.
  intros Hlen. rewrite (setStopClicking_spec value g Hlen). cbn [fst snd].
  repeat split; try apply pressed_keys_released.
  intros value'. rewrite setStopClicking_spec
    by (cbn [keyStates]; rewrite length_fmap; exact Hlen).
  cbn [fst keyStates]. rewrite pressed_keys_released. reflexivity.
Qed.

Lemma setStopClicking_releases_held_keys_witness :
  (setStopClicking false held_globals).1 = [KeyUp 68]
  /\ (setStopClicking true (setStopClicking false held_globals).2).1 = [].
Proof.
  pose proof (setStopClicking_releases_held_keys false held_globals eq_refl)
    as (_ & Hups & _ & _ & _ & _ & Hagain).
  split; [exact Hups | exact (Hagain true)].
Defined.

(** ** The stop operation racing a lane player *)

Lemma releaseKeysFrom_next n i ks :
  releaseKeysFrom (S n) i ks =
  let '(evs1, ks1) := releaseKeysFrom 1 i ks in
  let '(evs2, ks2) := releaseKeysFrom n (S i) ks1 in
  (evs1 ++ evs2, ks2).
Proof.
  cbn [releaseKeysFrom]. destruct (ks !! i) as [st|].
  - destruct (KeyState.is_pressed st);
      destruct (releaseKeysFrom n (S i) _) as [evs2 ks2]; reflexivity.
  - destruct (releaseKeysFrom n (S i) ks) as [evs2 ks2]; reflexivity.
Qed.

Section ThreadFacts.

Variable P : Platform.
Variable td : ThreadData.t.
Variable env : LaneEnv.
Variable s : RandState.

Lemma interleave_app (l1 l2 : list Thread) (c : Config) :
  interleave P td env s (l1 ++ l2) c =
  interleave P td env s l2 (interleave P td env s l1 c).
Proof. apply foldl_app. Qed.

(** The iterations of [releaseAllKeys] from index [i] on, made by the
    host with no step of the lane thread between them, are the loop of
    [releaseKeysFrom]. *)
Lemma host_scans n : forall i th g inj,
  (i + n = MAX_KEYS)%nat ->
  interleave P td env s (replicate n Host)
    {| lane_thread := th; host_point := AtScan i;
       world := {| globals := g; injected := inj |} |}
  = {| lane_thread := th; host_point := AtScan MAX_KEYS;
       world :=
         {| globals :=
              with_keyStates (releaseKeysFrom n i (keyStates g)).2 g;
            injected := inj ++ (releaseKeysFrom n i (keyStates g)).1 |} |}.
Proof.
  induction n as [|n IH]; intros i th g inj Hi.
  - cbn. rewrite app_nil_r. replace i with MAX_KEYS by lia.
    destruct g; reflexivity.
  - rewrite releaseKeysFrom_next.
    change (replicate (S n) Host) with ([Host] ++ replicate n Host).
    rewrite interleave_app.
    assert (Hlt : (i <? MAX_KEYS)%nat = true) by (apply Nat.ltb_lt; lia).
    unfold interleave at 2. cbn [foldl step hostStep host_point world].
    rewrite Hlt. cbn [globals injected].
    destruct (releaseKeysFrom 1 i (keyStates g)) as [evs1 ks1].
    unfold inject, with_globals. cbn [globals injected].
    rewrite IH by lia. cbn [keyStates with_keyStates].
    destruct (releaseKeysFrom n (S i) ks1) as [evs2 ks2]. cbn [fst snd].
    rewrite app_assoc. reflexivity.
Qed.

(** The host's call of [setStopClicking], when the lane thread makes no
    step meanwhile, does what the function [setStopClicking] says. *)
Lemma host_alone value th g inj :
  interleave P td env s (replicate (2 + MAX_KEYS) Host)
    {| lane_thread := th; host_point := AtSetStop value;
       world := {| globals := g; injected := inj |} |}
  = {| lane_thread := th; host_point := HostDone;
       world := {| globals := (setStopClicking value g).2;
                   injected := inj ++ (setStopClicking value g).1 |} |}.
Proof.
  change (replicate (2 + MAX_KEYS) Host)
    with ([Host] ++ replicate MAX_KEYS Host ++ [Host]).
  rewrite !interleave_app.
  unfold interleave at 3. cbn [foldl step hostStep host_point world].
  unfold with_globals. cbn [globals injected].
  rewrite host_scans by reflexivity.
  unfold setStopClicking, releaseAllKeys. cbn [keyStates].
  destruct (releaseKeysFrom MAX_KEYS 0 (keyStates g)) as [evs ks].
  reflexivity.
Qed.

(** [n] steps of the lane thread in a row. *)
Lemma lane_steps_S n c :
  interleave P td env s (replicate (S n) Lane) c =
  interleave P td env s (replicate n Lane) (step P td env s c Lane).
Proof. reflexivity. Qed.

Lemma lane_steps_add n m c :
  interleave P td env s (replicate (n + m) Lane) c =
  interleave P td env s (replicate m Lane)
    (interleave P td env s (replicate n Lane) c).
Proof. rewrite replicate_add. apply interleave_app. Qed.

Lemma busyWait_quiet_env g cs0 target e ps :
  busyWait (quiet_env env g s cs0) target e ps = busyWait env target e ps.
Proof.
  revert e. induction ps as [|p ps IH]; intros e; cbn; [reflexivity|].
  destruct (CDouble.ltb _ _); [|reflexivity].
  destruct (poll_stop p); [reflexivity|]. apply IH.
Qed.

(** A wait loop entered with the stop flag clear and no step of the host:
    the lane thread comes to the point behind the loop, or is still
    spinning when the counter values end, as [busyWait] says. *)
Lemma wait_alone (wait next : CDouble.double -> LanePoint) (target : Z)
    (h : HostPoint) (g : Globals) (inj : list KeyEvent) :
  stopClicking g = false ->
  (forall e th w,
     point th = wait e ->
     laneStep P td env s th w =
     if CDouble.ltb e (CDouble.of_Z target) then (pollStep env w th wait, w)
     else (at_point (next e) th, w)) ->
  forall cs e,
    match busyWait env target e (clear_polls cs) with
    | Reached e' rest =>
        exists n cs',
          rest = clear_polls cs'
          /\ interleave P td env s (replicate n Lane)
               {| lane_thread := {| point := wait e; counters := cs |};
                  host_point := h;
                  world := {| globals := g; injected := inj |} |}
             = {| lane_thread := {| point := next e'; counters := cs' |};
                  host_point := h;
                  world := {| globals := g; injected := inj |} |}
    | Pending =>
        exists n cs',
          interleave P td env s (replicate n Lane)
            {| lane_thread := {| point := wait e; counters := cs |};
               host_point := h;
               world := {| globals := g; injected := inj |} |}
          = {| lane_thread := {| point := Returned Running; counters := cs' |};
               host_point := h;
               world := {| globals := g; injected := inj |} |}
    | Stopped => False
    end.
Proof.
  intros Hclear Hstep. induction cs as [|c cs IH]; intros e.
  - cbn [clear_polls fmap list_fmap busyWait].
    destruct (CDouble.ltb e (CDouble.of_Z target)) eqn:Hlt.
    + exists 1%nat, []. unfold interleave. cbn [replicate foldl step].
      cbn [lane_thread world host_point].
      rewrite (Hstep e) by reflexivity. rewrite Hlt.
      unfold pollStep. cbn [globals counters]. rewrite Hclear. reflexivity.
    + exists 1%nat, []. split; [reflexivity|].
      unfold interleave. cbn [replicate foldl step].
      cbn [lane_thread world host_point].
      rewrite (Hstep e) by reflexivity. rewrite Hlt. reflexivity.
  - cbn [clear_polls fmap list_fmap busyWait poll_stop poll_counter].
    destruct (CDouble.ltb e (CDouble.of_Z target)) eqn:Hlt.
    + specialize (IH (elapsedTime env c)). fold (clear_polls cs).
      assert (Hone :
        step P td env s
          {| lane_thread := {| point := wait e; counters := c :: cs |};
             host_point := h;
             world := {| globals := g; injected := inj |} |} Lane
        = {| lane_thread :=
               {| point := wait (elapsedTime env c); counters := cs |};
             host_point := h;
             world := {| globals := g; injected := inj |} |}).
      { cbn [step lane_thread world host_point].
        rewrite (Hstep e) by reflexivity. rewrite Hlt.
        unfold pollStep. cbn [globals counters]. rewrite Hclear. reflexivity. }
      destruct (busyWait env target (elapsedTime env c) (clear_polls cs))
        as [e' rest| |].
      * destruct IH as (n & cs' & Hrest & Hrun).
        exists (S n), cs'. split; [exact Hrest|].
        rewrite lane_steps_S, Hone. exact Hrun.
      * exact IH.
      * destruct IH as (n & cs' & Hrun).
        exists (S n), cs'. rewrite lane_steps_S, Hone. exact Hrun.
    + exists 1%nat, (c :: cs). split; [reflexivity|].
      unfold interleave. cbn [replicate foldl step].
      cbn [lane_thread world host_point].
      rewrite (Hstep e) by reflexivity. rewrite Hlt. reflexivity.
Qed.

Lemma lane_step_1 c :
  interleave P td env s (replicate 1 Lane) c = step P td env s c Lane.
Proof. reflexivity. Qed.

(** The lane thread on its own, the stop flag clear: from the head of
    iteration [i] it runs as [playFrom] says, fed the counter values as
    polls that read the flag clear. *)
Lemma lane_from (h : HostPoint) (g : Globals) (cs0 : list Z) :
  stopClicking g = false ->
  forall objs i ks cs inj,
    drop i (ThreadData.objects td) = objs ->
    exists n cs',
      interleave P td env s (replicate n Lane)
        {| lane_thread := {| point := AtObject i; counters := cs |};
           host_point := h;
           world := {| globals := with_keyStates ks g; injected := inj |} |}
      = {| lane_thread :=
             {| point :=
                  Returned (exit (playFrom P td (quiet_env env g s cs0) i objs
                                           (clear_polls cs) ks));
                counters := cs' |};
           host_point := h;
           world :=
             {| globals :=
                  with_keyStates
                    (keys_after (playFrom P td (quiet_env env g s cs0) i objs
                                          (clear_polls cs) ks)) g;
                injected :=
                  inj ++ events (playFrom P td (quiet_env env g s cs0) i objs
                                          (clear_polls cs) ks) |} |}.
Proof.
  intros Hclear. induction objs as [|obj rest IH]; intros i ks cs inj Hdrop.
  - assert (Hlook : ThreadData.objects td !! i = None).
    { pose proof (lookup_drop (ThreadData.objects td) i 0) as H.
      rewrite Hdrop, Nat.add_0_r in H. symmetry. exact H. }
    exists 1%nat, cs. rewrite lane_step_1.
    cbn [step lane_thread world host_point]. unfold laneStep. cbn [point].
    rewrite Hlook. cbn. rewrite app_nil_r. reflexivity.
  - assert (Hlook : ThreadData.objects td !! i = Some obj).
    { pose proof (lookup_drop (ThreadData.objects td) i 0) as H.
      rewrite Hdrop, Nat.add_0_r in H. symmetry. exact H. }
    assert (Hrest : drop (S i) (ThreadData.objects td) = rest).
    { rewrite (drop_S _ _ _ Hlook) in Hdrop. congruence. }
    assert (Hnext : ThreadData.objects td !! S i = head rest).
    { rewrite <- Hrest. rewrite head_lookup, lookup_drop.
      rewrite Nat.add_0_r. reflexivity. }
    destruct cs as [|c cs1].
    + exists 1%nat, []. rewrite lane_step_1.
      cbn [step lane_thread world host_point]. unfold laneStep. cbn [point].
      rewrite Hlook. unfold pollStep. cbn [globals with_keyStates stopClicking].
      rewrite Hclear. cbn. rewrite app_nil_r. reflexivity.
    + cbn [clear_polls fmap list_fmap playFrom poll_stop poll_counter].
      fold (clear_polls cs1).
      change (reads (quiet_env env g s cs0) i) with (quiet_reads g s i).
      change (elapsedTime (quiet_env env g s cs0)) with (elapsedTime env).
      assert (Hfirst :
        interleave P td env s (replicate 1 Lane)
          {| lane_thread := {| point := AtObject i; counters := c :: cs1 |};
             host_point := h;
             world := {| globals := with_keyStates ks g; injected := inj |} |}
        = {| lane_thread :=
               {| point :=
                    match objectTimes P (ThreadData.startTimeAdjustment td) obj
                            (head rest) (quiet_reads g s i) with
                    | None => Returned Undefined
                    | Some (pressTime, releaseTime) =>
                        AtPressWait i pressTime releaseTime (elapsedTime env c)
                    end;
                  counters := cs1 |};
             host_point := h;
             world := {| globals := with_keyStates ks g; injected := inj |} |}).
      { rewrite lane_step_1.
        cbn [step lane_thread world host_point]. unfold laneStep. cbn [point].
        rewrite Hlook, Hnext. unfold pollStep.
        cbn [globals with_keyStates stopClicking counters].
        rewrite Hclear. reflexivity. }
      destruct (objectTimes P (ThreadData.startTimeAdjustment td) obj
                  (head rest) (quiet_reads g s i))
        as [[pressTime releaseTime]|].
      2:{ exists 1%nat, cs1. rewrite Hfirst. cbn. rewrite app_nil_r.
          reflexivity. }
      rewrite busyWait_quiet_env.
      pose proof (wait_alone (AtPressWait i pressTime releaseTime)
                    (AtPress i releaseTime) pressTime h (with_keyStates ks g)
                    inj Hclear) as Hw1.
      specialize (Hw1 ltac:(intros e th w Hpt; unfold laneStep; rewrite Hpt;
                            reflexivity) cs1 (elapsedTime env c)).
      destruct (busyWait env pressTime (elapsedTime env c) (clear_polls cs1))
        as [e2 ps2| |]; [|destruct Hw1|].
      2:{ destruct Hw1 as (n1 & cs2 & Hrun1).
          exists (1 + n1)%nat, cs2. rewrite lane_steps_add, Hfirst, Hrun1.
          cbn. rewrite app_nil_r. reflexivity. }
      destruct Hw1 as (n1 & cs2 & -> & Hrun1).
      assert (Hpress :
        interleave P td env s (replicate 1 Lane)
          {| lane_thread :=
               {| point := AtPress i releaseTime e2; counters := cs2 |};
             host_point := h;
             world := {| globals := with_keyStates ks g; injected := inj |} |}
        = match click td true ks with
          | None =>
              {| lane_thread :=
                   {| point := Returned Undefined; counters := cs2 |};
                 host_point := h;
                 world := {| globals := with_keyStates ks g;
                             injected := inj |} |}
          | Some (down, ks1) =>
              {| lane_thread :=
                   {| point := AtReleaseWait i releaseTime e2;
                      counters := cs2 |};
                 host_point := h;
                 world := {| globals := with_keyStates ks1 g;
                             injected := inj ++ down |} |}
          end).
      { rewrite lane_step_1.
        cbn [step lane_thread world host_point]. unfold laneStep. cbn [point].
        unfold clickStep. cbn [globals with_keyStates keyStates].
        destruct (click td true ks) as [[down ks1]|]; reflexivity. }
      destruct (click td true ks) as [[down ks1]|].
      2:{ exists (1 + (n1 + 1))%nat, cs2.
          rewrite lane_steps_add, Hfirst, lane_steps_add, Hrun1, Hpress.
          cbn. rewrite app_nil_r. reflexivity. }
      rewrite busyWait_quiet_env.
      pose proof (wait_alone (AtReleaseWait i releaseTime)
                    (fun _ => AtRelease i) releaseTime h
                    (with_keyStates ks1 g) (inj ++ down) Hclear) as Hw2.
      specialize (Hw2 ltac:(intros e th w Hpt; unfold laneStep; rewrite Hpt;
                            reflexivity) cs2 e2).
      destruct (busyWait env releaseTime e2 (clear_polls cs2))
        as [e3 ps3| |]; [|destruct Hw2|].
      2:{ destruct Hw2 as (n2 & cs3 & Hrun2).
          exists (1 + (n1 + (1 + n2)))%nat, cs3.
          rewrite lane_steps_add, Hfirst, lane_steps_add, Hrun1,
            lane_steps_add, Hpress, Hrun2.
          cbn. rewrite app_nil_r. reflexivity. }
      destruct Hw2 as (n2 & cs3 & -> & Hrun2).
      assert (Hrelease :
        interleave P td env s (replicate 1 Lane)
          {| lane_thread := {| point := AtRelease i; counters := cs3 |};
             host_point := h;
             world := {| globals := with_keyStates ks1 g;
                         injected := inj ++ down |} |}
        = match click td false ks1 with
          | None =>
              {| lane_thread :=
                   {| point := Returned Undefined; counters := cs3 |};
                 host_point := h;
                 world := {| globals := with_keyStates ks1 g;
                             injected := inj ++ down |} |}
          | Some (up, ks2) =>
              {| lane_thread :=
                   {| point := AtObject (S i); counters := cs3 |};
                 host_point := h;
                 world := {| globals := with_keyStates ks2 g;
                             injected := (inj ++ down) ++ up |} |}
          end).
      { rewrite lane_step_1.
        cbn [step lane_thread world host_point]. unfold laneStep. cbn [point].
        unfold clickStep. cbn [globals with_keyStates keyStates].
        destruct (click td false ks1) as [[up ks2]|]; reflexivity. }
      destruct (click td false ks1) as [[up ks2]|].
      2:{ exists (1 + (n1 + (1 + (n2 + 1))))%nat, cs3.
          rewrite lane_steps_add, Hfirst, lane_steps_add, Hrun1,
            lane_steps_add, Hpress, lane_steps_add, Hrun2, Hrelease.
          cbn. rewrite app_nil_r. reflexivity. }
      destruct (IH (S i) ks2 cs3 ((inj ++ down) ++ up) Hrest)
        as (n3 & cs4 & Hrun3).
      exists (1 + (n1 + (1 + (n2 + (1 + n3)))))%nat, cs4.
      rewrite lane_steps_add, Hfirst, lane_steps_add, Hrun1,
        lane_steps_add, Hpress, lane_steps_add, Hrun2,
        lane_steps_add, Hrelease, Hrun3.
      cbn. rewrite <- !app_assoc. reflexivity.
Qed.

(** A lane thread started with the flag clear and left alone by the host
    does, step by step, what [columnPlayer] says. *)
Lemma lane_alone (h : HostPoint) (g : Globals) (cs : list Z) :
  stopClicking g = false ->
  exists n cs',
    interleave P td env s (replicate n Lane)
      {| lane_thread := {| point := AtObject 0; counters := cs |};
         host_point := h;
         world := {| globals := g; injected := [] |} |}
    = {| lane_thread :=
           {| point :=
                Returned (exit (columnPlayer P td (quiet_env env g s cs)
                                             (keyStates g)));
              counters := cs' |};
         host_point := h;
         world :=
           {| globals :=
                with_keyStates
                  (keys_after (columnPlayer P td (quiet_env env g s cs)
                                            (keyStates g))) g;
              injected :=
                events (columnPlayer P td (quiet_env env g s cs)
                                     (keyStates g)) |} |}.
Proof.
  intros Hclear.
  destruct (lane_from h g cs Hclear (ThreadData.objects td) 0 (keyStates g)
              cs [] eq_refl) as (n & cs' & Hrun).
  exists n, cs'. unfold columnPlayer.
  change (polls (quiet_env env g s cs)) with (clear_polls cs).
  replace g with (with_keyStates (keyStates g) g) at 1
    by (destruct g; reflexivity).
  exact Hrun.
Qed.

Lemma all_released_pending (evs : list KeyEvent) (k : Z) :
  all_released (evs ++ [KeyDown k]) = false.
Proof.
  induction evs as [|[k'|k'] evs IH]; cbn; [reflexivity| |exact IH].
  rewrite IH. apply andb_false_r.
Qed.

(** C8.  The stop operation can miss a key.  Take any run in which the
    lane thread has left its press wait - its last poll read the flag
    clear - and stands before the press with the release time still
    ahead, the host being about to call [setStopClicking(TRUE)].  Let the
    host's call run from its store to the end of [releaseAllKeys] before
    the lane thread's next step.  The scan injects a key-up for the keys
    that read pressed and finds the lane's own flag clear or clears it;
    the lane thread then presses its key, sets the flag, reads
    [stopClicking] in the release wait and returns.  Both threads are
    done, the last event injected is the key-down, no key-up follows it,
    and the lane's [KeyState] still reads pressed. *)
Theorem stop_before_press_misses_the_key (schedule : list Thread)
    (cs0 cs : list Z) (g0 g : Globals) (inj : list KeyEvent) (i : nat)
    (releaseTime : Z) (elapsed : CDouble.double) (st : KeyState.t) :
  interleave P td env s schedule (started cs0 true g0)
  = {| lane_thread :=
         {| point := AtPress i releaseTime elapsed; counters := cs |};
       host_point := AtSetStop true;
       world := {| globals := g; injected := inj |} |} ->
  ThreadData.enableClicking td = true ->
  length (keyStates g) = MAX_KEYS ->
  keyStates g !! ThreadData.columnIndex td = Some st ->
  CDouble.ltb elapsed (CDouble.of_Z releaseTime) = true ->
  point (lane_thread
           (interleave P td env s
              (schedule ++ replicate (2 + MAX_KEYS) Host ++ [Lane; Lane])
              (started cs0 true g0)))
  = Returned Cancelled
  /\ host_point
       (interleave P td env s
          (schedule ++ replicate (2 + MAX_KEYS) Host ++ [Lane; Lane])
          (started cs0 true g0))
     = HostDone
  /\ stopClicking
       (globals (world
          (interleave P td env s
             (schedule ++ replicate (2 + MAX_KEYS) Host ++ [Lane; Lane])
             (started cs0 true g0))))
     = true
  /\ injected
       (world
          (interleave P td env s
             (schedule ++ replicate (2 + MAX_KEYS) Host ++ [Lane; Lane])
             (started cs0 true g0)))
     = inj ++ (KeyUp <$> pressed_keys (keyStates g))
           ++ [KeyDown (KeyState.key st)]
  /\ all_released
       (injected
          (world
             (interleave P td env s
                (schedule ++ replicate (2 + MAX_KEYS) Host ++ [Lane; Lane])
                (started cs0 true g0))))
     = false
  /\ keyStates
       (globals (world
          (interleave P td env s
             (schedule ++ replicate (2 + MAX_KEYS) Host ++ [Lane; Lane])
             (started cs0 true g0))))
       !! ThreadData.columnIndex td
     = Some (KeyState.with_is_pressed true st).
Proof.
  intros Hreach Hen Hlen Hst Hlt.
  rewrite !interleave_app, Hreach, host_alone.
  rewrite (setStopClicking_spec true g Hlen). cbn [fst snd].
  assert (Hst' :
    (KeyState.with_is_pressed false <$> keyStates g)
      !! ThreadData.columnIndex td
    = Some (KeyState.with_is_pressed false st))
    by (rewrite list_lookup_fmap, Hst; reflexivity).
  set (g1 := {| stopClicking := true; timingShift := timingShift g;
                offset := offset g;
                keyStates := KeyState.with_is_pressed false <$> keyStates g |}).
  set (inj1 := inj ++ (KeyUp <$> pressed_keys (keyStates g))).
  assert (Hpress :
    step P td env s
      {| lane_thread :=
           {| point := AtPress i releaseTime elapsed; counters := cs |};
         host_point := HostDone;
         world := {| globals := g1; injected := inj1 |} |} Lane
    = {| lane_thread :=
           {| point := AtReleaseWait i releaseTime elapsed; counters := cs |};
         host_point := HostDone;
         world :=
           {| globals :=
                with_keyStates
                  (<[ThreadData.columnIndex td :=
                       KeyState.with_is_pressed true st]> (keyStates g1)) g1;
              injected := inj1 ++ [KeyDown (KeyState.key st)] |} |}).
  { cbn [step lane_thread world host_point]. unfold laneStep. cbn [point].
    unfold clickStep, click. rewrite Hen. cbn [globals].
    change (keyStates g1)
      with (KeyState.with_is_pressed false <$> keyStates g).
    rewrite Hst'. reflexivity. }
  assert (Hwait : forall g2 inj2,
    stopClicking g2 = true ->
    step P td env s
      {| lane_thread :=
           {| point := AtReleaseWait i releaseTime elapsed; counters := cs |};
         host_point := HostDone;
         world := {| globals := g2; injected := inj2 |} |} Lane
    = {| lane_thread := {| point := Returned Cancelled; counters := cs |};
         host_point := HostDone;
         world := {| globals := g2; injected := inj2 |} |}).
  { intros g2 inj2 Hset.
    cbn [step lane_thread world host_point]. unfold laneStep. cbn [point].
    rewrite Hlt. unfold pollStep. cbn [globals]. rewrite Hset. reflexivity. }
  change (interleave P td env s [Lane; Lane] ?c)
    with (step P td env s (step P td env s c Lane) Lane).
  rewrite Hpress, Hwait by reflexivity.
  cbn [lane_thread host_point world point globals injected with_keyStates
       stopClicking keyStates g1].
  split; [reflexivity|]. split; [reflexivity|]. split; [reflexivity|].
  unfold inj1. rewrite <- app_assoc.
  split; [reflexivity|].
  split; [rewrite app_assoc; apply all_released_pending|].
  apply list_lookup_insert_eq.
  rewrite length_fmap. apply lookup_lt_is_Some. eauto.
Qed.

End ThreadFacts.

Lemma stop_before_press_misses_the_key_witness :
  injected
    (world
       (interleave sample_platform sample_lane sample_env (sample_source 1)
          ([Lane; Lane; Lane] ++ replicate (2 + MAX_KEYS) Host ++ [Lane; Lane])
          (started [0; 1000; 1001] true sample_session_globals)))
  = [KeyDown 68]
  /\ all_released
       (injected
          (world
             (interleave sample_platform sample_lane sample_env
                (sample_source 1)
                ([Lane; Lane; Lane] ++ replicate (2 + MAX_KEYS) Host
                 ++ [Lane; Lane])
                (started [0; 1000; 1001] true sample_session_globals))))
     = false.
Proof.
  pose proof (stop_before_press_misses_the_key sample_platform sample_lane
                sample_env (sample_source 1) [Lane; Lane; Lane]
                [0; 1000; 1001] [1001] sample_session_globals
                sample_session_globals [] 0 1050 (elapsedTime sample_env 1000)
                {| KeyState.key := 68; KeyState.press_time := 0;
                   KeyState.release_time := 0; KeyState.is_pressed := false |})
    as H.
  destruct H as (_ & _ & _ & Hinj & Hopen & _);
    [vm_compute; reflexivity|reflexivity|reflexivity|reflexivity
    |vm_compute; reflexivity|].
  split; [exact Hinj|exact Hopen].
Defined.

(** The same steps with the host's call after the press: the scan finds
    the flag set and injects the key-up. *)
Example stop_after_press_releases :
  injected
    (world
       (interleave sample_platform sample_lane sample_env (sample_source 1)
          ([Lane; Lane; Lane; Lane] ++ replicate (2 + MAX_KEYS) Host ++ [Lane])
          (started [0; 1000; 1001] true sample_session_globals)))
  = [KeyDown 68; KeyUp 68].
Proof. vm_compute. reflexivity. Qed.

Ltac word_literals :=
  change (CInt.to_word 65) with 65; change (CInt.to_word 83) with 83;
  change (CInt.to_word 68) with 68; change (CInt.to_word 70) with 70;
  change (CInt.to_word 74) with 74; change (CInt.to_word 75) with 75;
  change (CInt.to_word 76) with 76.

(** ** Key bindings *)

Section KeyBindingFacts.

Variable P : Platform.

Lemma keys_unfold :
  keys P = [65; 83; 68; 70; CInt.to_char (VK_SPACE P); 74; 75; 76;
            CInt.to_char (VK_OEM_1 P)].
Proof. reflexivity. Qed.

Lemma length_9 {A} (l : list A) :
  length l = 9%nat ->
  exists a0 a1 a2 a3 a4 a5 a6 a7 a8, l = [a0; a1; a2; a3; a4; a5; a6; a7; a8].
Proof.
  intros H.
  do 9 (destruct l as [|? l]; [discriminate|]).
  destruct l; [|discriminate]. eauto 10.
Qed.

(** C6.  For every lane count [L] from 1 to 9 and no custom key table,
    provided the nine key codes of the default layout are pairwise
    distinct (as those of the Windows headers are), [setupKeyBindings]
    succeeds, gives lanes [0 .. L-1] pairwise distinct keys, leaves the
    entries from [L] on as they were, and for odd [L] binds the middle
    lane [L / 2] to the center key [VK_SPACE]. *)
Theorem setupKeyBindings_default_layout (columns : list Z) (L : nat)
    (ks : list KeyState.t) :
  (1 <= L <= 9)%nat ->
  length ks = MAX_KEYS ->
  NoDup (default_key_codes P) ->
  exists ks',
    setupKeyBindings P columns L None ks = Some ks'
    /\ length ks' = MAX_KEYS
    /\ NoDup (KeyState.key <$> take L ks')
    /\ drop L ks' = drop L ks
    /\ ((L mod 2 = 1)%nat ->
        KeyState.key <$> ks' !! (L / 2)%nat = Some (center_key P)).
Proof.
  intros HL Hlen Hnd.
  apply length_9 in Hlen as (a0&a1&a2&a3&a4&a5&a6&a7&a8&->).
  unfold default_key_codes, center_key in *.
  unfold setupKeyBindings, bindLeft, bindRight.
  change (keys P) with [65; 83; 68; 70; CInt.to_char (VK_SPACE P); 74; 75; 76;
                        CInt.to_char (VK_OEM_1 P)].
  remember (CInt.to_char (VK_SPACE P)) as sc eqn:Hsc.
  remember (CInt.to_char (VK_OEM_1 P)) as oc eqn:Hoc.
  remember (VK_SPACE P) as sp eqn:Hsp.
  clear Hsc Hoc Hsp.
  repeat rewrite NoDup_cons in Hnd. repeat rewrite elem_of_cons in Hnd.
  assert (HL' : (L = 1 \/ L = 2 \/ L = 3 \/ L = 4 \/ L = 5 \/ L = 6 \/ L = 7
                 \/ L = 8 \/ L = 9)%nat) by lia.
  destruct HL' as [->|[->|[->|[->|[->|[->|[->|[->| ->]]]]]]]].
  all: eexists; split; [cbv -[CInt.to_word]; word_literals; reflexivity|].
  all: split; [reflexivity|].
  all: split;
    [cbn;
     repeat (apply NoDup_cons_2;
             [rewrite ?elem_of_cons, elem_of_nil; intuition congruence|]);
     apply NoDup_nil_2|].
  all: split; [reflexivity|].
  all: cbn; intros; try discriminate; reflexivity.
Qed.
End KeyBindingFacts.

Lemma setupKeyBindings_default_layout_witness :
  exists ks',
    setupKeyBindings sample_platform [36; 109; 182; 256; 329; 402; 475] 7 None
                     (keyStates initial_globals) = Some ks'
    /\ length ks' = MAX_KEYS
    /\ NoDup (KeyState.key <$> take 7 ks')
    /\ drop 7 ks' = drop 7 (keyStates initial_globals)
    /\ ((7 mod 2 = 1)%nat ->
        KeyState.key <$> ks' !! (7 / 2)%nat
        = Some (center_key sample_platform)).
Proof.
  apply (setupKeyBindings_default_layout sample_platform
           [36; 109; 182; 256; 329; 402; 475] 7 (keyStates initial_globals)).
  - lia.
  - reflexivity.
  - apply (bool_decide_unpack _). vm_compute. exact I.
Defined.

(** ** Column partitioner *)

Lemma getKeyIndex_from_range x columns : forall i,
  getKeyIndex_from i x columns = -1 \/
  i <= getKeyIndex_from i x columns < i + Z.of_nat (length columns).
Proof.
  induction columns as [|c rest IH]; intros i; cbn [getKeyIndex_from length].
  - left. reflexivity.
  - destruct (x =? c); [right; lia|].
    destruct (IH (i + 1)) as [H|H]; [left; exact H|right; lia].
Qed.

Lemma bucketObject_length columns buckets o :
  length (bucketObject columns buckets o) = length buckets.
Proof.
  unfold bucketObject.
  destruct (_ =? -1); [reflexivity|].
  destruct (array_get _ _); [|reflexivity].
  destruct (_ <? _); [apply length_insert|reflexivity].
Qed.

Lemma columnObjects_length columns hitObjects :
  length (columnObjects columns hitObjects) = MAX_KEYS.
Proof.
  unfold columnObjects.
  induction hitObjects as [|o l IH] using rev_ind; [reflexivity|].
  rewrite foldl_snoc, bucketObject_length. exact IH.
Qed.

(** Bucket [i] of [columnObjects] holds the objects whose position is
    found at index [i], in input order, cut at the bucket capacity. *)
Lemma columnObjects_lookup columns hitObjects (i : nat) :
  (i < MAX_KEYS)%nat ->
  columnObjects columns hitObjects !! i
  = Some (lane_objects_of columns i hitObjects).
Proof.
  intros Hi. unfold lane_objects_of.
  induction hitObjects as [|o l IH] using rev_ind.
  - unfold columnObjects. cbn [foldl]. rewrite lookup_replicate_2 by exact Hi.
    reflexivity.
  - unfold columnObjects in *. rewrite foldl_snoc, filter_app.
    set (buckets := foldl (bucketObject columns) (replicate MAX_KEYS []) l) in *.
    set (M := Z.to_nat MAX_OBJECTS_PER_COLUMN) in *.
    unfold bucketObject.
    pose proof (getKeyIndex_from_range (HitObject.x o) columns 0) as Hj.
    fold (getKeyIndex (HitObject.x o) columns) in Hj.
    set (j := getKeyIndex (HitObject.x o) columns) in *.
    assert (Hone : filter (fun o0 => getKeyIndex (HitObject.x o0) columns = Z.of_nat i) [o]
                   = if decide (j = Z.of_nat i) then [o] else []).
    { rewrite filter_cons, filter_nil. reflexivity. }
    rewrite Hone.
    destruct (Z.eqb_spec j (-1)) as [Hneg|Hneg].
    { rewrite decide_False by lia. rewrite app_nil_r. exact IH. }
    unfold array_get. destruct (Z.ltb_spec j 0) as [?|Hj0]; [lia|].
    destruct (decide (j = Z.of_nat i)) as [->|Hji].
    + rewrite Nat2Z.id, IH.
      set (F := filter _ l) in *.
      rewrite length_take.
      destruct (Z.ltb_spec (Z.of_nat (M `min` length F)) MAX_OBJECTS_PER_COLUMN) as [Hlt|Hge].
      * rewrite list_lookup_insert_eq
          by (rewrite (columnObjects_length columns l : length buckets = _); exact Hi).
        assert (length F < M)%nat by (unfold M; lia).
        rewrite !take_ge by (rewrite ?length_app; cbn; lia). reflexivity.
      * rewrite IH.
        assert (M <= length F)%nat by (unfold M in *; lia).
        rewrite take_app_le by lia. reflexivity.
    + rewrite app_nil_r.
      destruct (buckets !! Z.to_nat j) as [b|]; [|exact IH].
      destruct (_ <? _); [|exact IH].
      rewrite list_lookup_insert_ne by lia. exact IH.
Qed.
(** The lane centres of the explicit branch, for four and for seven
    lanes. *)
Example explicitColumns_4K_7K :
  explicitColumns 4 = Some [64; 192; 320; 448]
  /\ explicitColumns 7 = Some [36; 109; 182; 256; 329; 402; 475].
Proof. split; vm_compute; reflexivity. Qed.

Lemma qsort_insert_length cmp a l :
  length (qsort_insert cmp a l) = S (length l).
Proof.
  induction l as [|b l IH]; cbn; [reflexivity|].
  destruct (_ <=? _); cbn; [reflexivity|]. rewrite IH. reflexivity.
Qed.

Lemma qsort_length cmp l : length (qsort cmp l) = length l.
Proof.
  induction l as [|a l IH]; cbn; [reflexivity|].
  rewrite qsort_insert_length, IH. reflexivity.
Qed.

Lemma scanObject_length columns o :
  (length columns <= MAX_KEYS)%nat ->
  (length columns <= length (scanObject columns o) <= MAX_KEYS)%nat.
Proof.
  intros H. unfold scanObject.
  destruct (negb _); cbn [andb]; [|lia].
  destruct (Nat.ltb_spec (length columns) MAX_KEYS); [|lia].
  rewrite length_app. cbn. lia.
Qed.

Lemma foldl_scanObject_length l : forall columns,
  (length columns <= MAX_KEYS)%nat ->
  (length columns <= length (foldl scanObject columns l) <= MAX_KEYS)%nat.
Proof.
  induction l as [|o l IH]; intros columns H; cbn [foldl]; [lia|].
  pose proof (scanObject_length columns o H).
  pose proof (IH (scanObject columns o)). lia.
Qed.

Lemma detectColumns_length hitObjects :
  (length (detectColumns hitObjects) <= MAX_KEYS)%nat.
Proof.
  unfold detectColumns.
  pose proof (foldl_scanObject_length hitObjects []) as H. cbn in H.
  unfold MAX_KEYS in *. lia.
Qed.

Lemma detectColumns_nil hitObjects :
  detectColumns hitObjects = [] <-> hitObjects = [].
Proof.
  split; [|intros ->; reflexivity].
  destruct hitObjects as [|o l]; [reflexivity|].
  unfold detectColumns. cbn [foldl]. intros H.
  pose proof (foldl_scanObject_length l (scanObject [] o)) as Hl.
  rewrite H in Hl. cbn in Hl. unfold MAX_KEYS in Hl. lia.
Qed.

Lemma explicitColumns_length n columns :
  explicitColumns n = Some columns -> length columns = Z.to_nat n.
Proof.
  unfold explicitColumns. intros H. apply length_mapM in H.
  rewrite length_fmap, length_seq in H. congruence.
Qed.

Lemma laneColumns_length hitObjects expectedColumnCount columns :
  laneColumns hitObjects expectedColumnCount = Some columns ->
  (length columns <= MAX_KEYS)%nat.
Proof.
  unfold laneColumns.
  destruct (Z.ltb_spec 0 expectedColumnCount) as [H0|H0]; cbn [andb].
  - destruct (Z.leb_spec expectedColumnCount (Z.of_nat MAX_KEYS)) as [H9|H9].
    + destruct (explicitColumns expectedColumnCount) as [cs|] eqn:He; [|discriminate].
      cbn. intros [= <-]. rewrite qsort_length.
      rewrite (explicitColumns_length _ _ He). lia.
    + cbn. intros [= <-]. rewrite qsort_length. apply detectColumns_length.
  - cbn. intros [= <-]. rewrite qsort_length. apply detectColumns_length.
Qed.

Lemma laneColumns_auto hitObjects expectedColumnCount :
  ~ 1 <= expectedColumnCount <= 9 ->
  laneColumns hitObjects expectedColumnCount
  = Some (qsort compare_ints (detectColumns hitObjects)).
Proof.
  intros H. unfold laneColumns.
  destruct (Z.ltb_spec 0 expectedColumnCount);
    destruct (Z.leb_spec expectedColumnCount (Z.of_nat MAX_KEYS));
    cbn [andb]; try reflexivity.
  unfold MAX_KEYS in *. lia.
Qed.

Lemma threadData_lookup buckets n adj en off i td :
  threadData buckets n adj en off !! i = Some td ->
  (i < n)%nat
  /\ ThreadData.columnIndex td = i
  /\ ThreadData.objects td = default [] (buckets !! i).
Proof.
  unfold threadData. rewrite list_lookup_fmap.
  destruct (seq 0 n !! i) as [j|] eqn:Hj; [|discriminate].
  apply lookup_seq in Hj as [-> Hlt]. cbn. intros [= <-]. cbn. auto.
Qed.

Lemma threadData_length buckets n adj en off :
  length (threadData buckets n adj en off) = n.
Proof. unfold threadData. rewrite length_fmap, length_seq. reflexivity. Qed.

Lemma Forall_sublist {A} (Q : A -> Prop) (l1 l2 : list A) :
  l1 `sublist_of` l2 -> Forall Q l2 -> Forall Q l1.
Proof.
  induction 1 as [|a l1 l2 Hsub IH|a l1 l2 Hsub IH]; intros Hall.
  - constructor.
  - apply Forall_cons in Hall as [Ha Hall]. constructor; auto.
  - apply Forall_cons in Hall as [_ Hall]. auto.
Qed.

Lemma StronglySorted_sublist {A} (R : A -> A -> Prop) (l1 l2 : list A) :
  l1 `sublist_of` l2 -> StronglySorted R l2 -> StronglySorted R l1.
Proof.
  induction 1 as [|a l1 l2 Hsub IH|a l1 l2 Hsub IH]; intros Hs.
  - constructor.
  - apply StronglySorted_inv in Hs as [Hs Hall]. constructor; [auto|].
    eapply Forall_sublist; eassumption.
  - apply StronglySorted_inv in Hs as [Hs _]. auto.
Qed.

Lemma non_decreasing_sublist l1 l2 :
  l1 `sublist_of` l2 -> non_decreasing l2 -> non_decreasing l1.
Proof.
  unfold non_decreasing. intros Hsub Hs.
  apply StronglySorted_Sorted.
  apply (StronglySorted_sublist _ _ _ Hsub).
  apply Sorted_StronglySorted; [|exact Hs].
  intros a b c Hab Hbc. lia.
Qed.

Lemma lane_objects_of_sublist columns i hitObjects :
  lane_objects_of columns i hitObjects `sublist_of` hitObjects.
Proof.
  unfold lane_objects_of.
  etransitivity; [apply sublist_take|]. apply sublist_filter.
Qed.

Section PartitionFacts.
Variable P : Platform.

(** C1, as the code has it.  The partitioner does not sort: the objects
    handed to the player of lane [i] are the objects of the input whose
    position is lane [i]'s, in input order, up to the bucket capacity.
    They form a subsequence of the input, so every lane is in
    non-decreasing timestamp order whenever the input list is. *)
Theorem lanes_keep_input_order (hitObjects : list HitObject.t)
    (unused1 unused2 startTimeAdjustment : Z) (enableClicking : bool)
    (offset expectedColumnCount : Z) (customKeys : option (list Z))
    (g g' : Globals) (tds : list ThreadData.t) :
  clickHitObjects_spawn P hitObjects unused1 unused2 startTimeAdjustment
    enableClicking offset expectedColumnCount customKeys g = Some (g', tds) ->
  exists columns,
    laneColumns hitObjects expectedColumnCount = Some columns
    /\ length tds = length columns
    /\ forall i td, tds !! i = Some td ->
         ThreadData.objects td = lane_objects_of columns i hitObjects
         /\ ThreadData.objects td `sublist_of` hitObjects
         /\ (non_decreasing hitObjects -> non_decreasing (ThreadData.objects td)).
Proof.
  unfold clickHitObjects_spawn.
  destruct (laneColumns hitObjects expectedColumnCount) as [columns|] eqn:Hc;
    [|discriminate].
  cbn [mbind option_bind].
  destruct (setupKeyBindings _ _ _ _ _) as [ks|]; [|discriminate].
  cbn [mbind option_bind]. intros [= <- <-].
  exists columns. split; [reflexivity|].
  split; [apply threadData_length|].
  intros i td Htd.
  apply threadData_lookup in Htd as (Hi & _ & Hobjs).
  pose proof (laneColumns_length _ _ _ Hc) as Hlen.
  rewrite columnObjects_lookup in Hobjs by lia. cbn in Hobjs.
  rewrite Hobjs.
  split; [reflexivity|].
  split; [apply lane_objects_of_sublist|].
  apply non_decreasing_sublist, lane_objects_of_sublist.
Qed.
End PartitionFacts.

(** C1 as stated fails: two objects of one lane given latest first are
    handed to the lane's player latest first. *)
Lemma unsorted_input_unsorted_lane :
  exists g' td,
    clickHitObjects_spawn sample_platform [tap 64 2000; tap 64 1000]
      0 0 0 true 30 0 None initial_globals = Some (g', [td])
    /\ HitObject.timestamp <$> ThreadData.objects td = [2000; 1000]
    /\ ~ non_decreasing (ThreadData.objects td).
Proof.
  eexists _, _. split; [vm_compute; reflexivity|].
  split; [reflexivity|].
  cbn. intros H. apply Sorted_inv in H as [_ H].
  apply HdRel_inv in H. cbn in H. lia.
Qed.

Lemma lanes_keep_input_order_witness :
  exists columns,
    laneColumns [tap 64 1000; tap 192 1000; tap 64 2000] 4 = Some columns
    /\ length
         (threadData (columnObjects [64; 192; 320; 448]
                        [tap 64 1000; tap 192 1000; tap 64 2000])
                     4 0 true 30) = length columns
    /\ forall i td,
         threadData (columnObjects [64; 192; 320; 448]
                       [tap 64 1000; tap 192 1000; tap 64 2000])
                    4 0 true 30 !! i = Some td ->
         ThreadData.objects td
           = lane_objects_of columns i [tap 64 1000; tap 192 1000; tap 64 2000]
         /\ ThreadData.objects td
              `sublist_of` [tap 64 1000; tap 192 1000; tap 64 2000]
         /\ (non_decreasing [tap 64 1000; tap 192 1000; tap 64 2000] ->
             non_decreasing (ThreadData.objects td)).
Proof.
  apply (lanes_keep_input_order sample_platform
           [tap 64 1000; tap 192 1000; tap 64 2000] 0 0 0 true 30 4 None
           initial_globals
           (with_keyStates sample_keyStates initial_globals)).
  vm_compute. reflexivity.
Defined.

(** ** Session *)

Section SessionFacts.
Variable P : Platform.

(** The default layout is defined for every lane count up to [MAX_KEYS]. *)
Lemma setupKeyBindings_defined (columns : list Z) (L : nat)
    (ks : list KeyState.t) :
  (L <= MAX_KEYS)%nat -> length ks = MAX_KEYS ->
  is_Some (setupKeyBindings P columns L None ks).
Proof.
  intros HL Hlen.
  apply length_9 in Hlen as (a0&a1&a2&a3&a4&a5&a6&a7&a8&->).
  unfold setupKeyBindings, bindLeft, bindRight.
  change (keys P) with [65; 83; 68; 70; CInt.to_char (VK_SPACE P); 74; 75; 76;
                        CInt.to_char (VK_OEM_1 P)].
  remember (CInt.to_char (VK_SPACE P)) as sc eqn:Hsc.
  remember (CInt.to_char (VK_OEM_1 P)) as oc eqn:Hoc.
  remember (VK_SPACE P) as sp eqn:Hsp.
  clear Hsc Hoc Hsp. unfold MAX_KEYS in HL.
  assert (HL' : (L = 0 \/ L = 1 \/ L = 2 \/ L = 3 \/ L = 4 \/ L = 5 \/ L = 6
                 \/ L = 7 \/ L = 8 \/ L = 9)%nat) by lia.
  destruct HL' as [->|[->|[->|[->|[->|[->|[->|[->|[->| ->]]]]]]]]].
  all: eexists; cbv -[CInt.to_word]; reflexivity.
Qed.

(** C3, as the code has it.  A lane count outside [1,9] is not rejected:
    it selects the inference branch, exactly as the count 0 does.  One
    lane player is started per distinct position found (nine at most),
    so none is started only when there is no hit object; and with the
    default key layout the call always goes through. *)
Theorem out_of_range_count_selects_auto (hitObjects : list HitObject.t)
    (unused1 unused2 startTimeAdjustment : Z) (enableClicking : bool)
    (offset expectedColumnCount : Z) (customKeys : option (list Z))
    (g : Globals) :
  ~ 1 <= expectedColumnCount <= 9 ->
  length (keyStates g) = MAX_KEYS ->
  clickHitObjects_spawn P hitObjects unused1 unused2 startTimeAdjustment
    enableClicking offset expectedColumnCount customKeys g
  = clickHitObjects_spawn P hitObjects unused1 unused2 startTimeAdjustment
      enableClicking offset 0 customKeys g
  /\ (forall g' tds,
        clickHitObjects_spawn P hitObjects unused1 unused2 startTimeAdjustment
          enableClicking offset expectedColumnCount customKeys g
        = Some (g', tds) ->
        length tds = length (detectColumns hitObjects)
        /\ (tds = [] <-> hitObjects = []))
  /\ is_Some
       (clickHitObjects_spawn P hitObjects unused1 unused2 startTimeAdjustment
          enableClicking offset expectedColumnCount None g).
Proof.
  intros Hout Hlen. unfold clickHitObjects_spawn.
  rewrite (laneColumns_auto hitObjects expectedColumnCount Hout).
  rewrite (laneColumns_auto hitObjects 0) by lia.
  cbn [mbind option_bind]. rewrite !qsort_length.
  split; [reflexivity|]. split.
  - intros g' tds.
    destruct (setupKeyBindings _ _ _ _ _) as [ks|]; [|discriminate].
    cbn [mbind option_bind]. intros [= _ <-].
    rewrite threadData_length. split; [reflexivity|].
    rewrite <- detectColumns_nil.
    destruct (detectColumns hitObjects); cbn; split; (discriminate || reflexivity).
  - destruct (setupKeyBindings_defined
                (qsort compare_ints (detectColumns hitObjects))
                (length (detectColumns hitObjects)) (keyStates g)
                (detectColumns_length hitObjects) Hlen) as [ks ->].
    cbn. eauto.
Qed.

Lemma playFrom_ignores_offset v td env objs :
  forall i ps ks,
    playFrom P (with_offset v td) env i objs ps ks = playFrom P td env i objs ps ks.
Proof.
  induction objs as [|obj rest IH]; intros i ps ks; [reflexivity|].
  cbn [playFrom]. destruct ps as [|q ps1]; [reflexivity|].
  destruct (poll_stop q); [reflexivity|].
  change (ThreadData.startTimeAdjustment (with_offset v td))
    with (ThreadData.startTimeAdjustment td).
  destruct (objectTimes _ _ _ _ _) as [[pressTime releaseTime]|]; [|reflexivity].
  destruct (busyWait env pressTime _ ps1) as [e2 ps2| |]; try reflexivity.
  change (click (with_offset v td)) with (click td).
  destruct (click td true ks) as [[down ks1]|]; [|reflexivity].
  destruct (busyWait env releaseTime e2 ps2) as [e3 ps3| |]; try reflexivity.
  destruct (click td false ks1) as [[up ks2]|]; [|reflexivity].
  rewrite IH. reflexivity.
Qed.

Lemma columnPlayer_ignores_offset v td env ks :
  columnPlayer P (with_offset v td) env ks = columnPlayer P td env ks.
Proof. unfold columnPlayer. apply playFrom_ignores_offset. Qed.

Lemma threadData_with_offset buckets n adj en off off' :
  threadData buckets n adj en off'
  = with_offset off' <$> threadData buckets n adj en off.
Proof. unfold threadData. rewrite <- list_fmap_compose. reflexivity. Qed.

Lemma spawn_with_offset (hitObjects : list HitObject.t)
    (unused1 unused2 unused1' unused2' startTimeAdjustment : Z)
    (enableClicking : bool) (offset_arg offset_arg' expectedColumnCount : Z)
    (customKeys : option (list Z)) (g : Globals) :
  clickHitObjects_spawn P hitObjects unused1' unused2' startTimeAdjustment
    enableClicking offset_arg' expectedColumnCount customKeys g
  = (fun r : Globals * list ThreadData.t =>
       (r.1, with_offset offset_arg' <$> r.2)) <$>
      clickHitObjects_spawn P hitObjects unused1 unused2 startTimeAdjustment
        enableClicking offset_arg expectedColumnCount customKeys g.
Proof.
  unfold clickHitObjects_spawn.
  destruct (laneColumns _ _) as [columns|]; [|reflexivity].
  cbn [mbind option_bind].
  destruct (setupKeyBindings _ _ _ _ _) as [ks|]; [|reflexivity].
  cbn. rewrite <- threadData_with_offset. reflexivity.
Qed.

(** C9.  The jitter-amplitude argument of [clickHitObjects] and its two
    unused integer arguments do not influence a session: two calls that
    differ only in them report the same lanes, the same objects per
    lane, the same computed times and the same key events and exits.
    The argument is only stored in [ThreadData.offset], a field that
    [columnPlayer] never reads; the amplitude of a draw is the value
    read from the global [offset], which is 30 until [setOffset] stores
    another. *)
Theorem jitter_argument_is_ignored (hitObjects : list HitObject.t)
    (unused1 unused2 unused1' unused2' startTimeAdjustment : Z)
    (enableClicking : bool) (offset_arg offset_arg' expectedColumnCount : Z)
    (customKeys : option (list Z)) (g : Globals) (envs : nat -> LaneEnv) :
  clickHitObjects P hitObjects unused1 unused2 startTimeAdjustment
    enableClicking offset_arg expectedColumnCount customKeys g envs
  = clickHitObjects P hitObjects unused1' unused2' startTimeAdjustment
      enableClicking offset_arg' expectedColumnCount customKeys g envs
  /\ (forall td v env ks,
        columnPlayer P (with_offset v td) env ks = columnPlayer P td env ks)
  /\ (forall s i,
        draw P (press_jitter (quiet_reads g s i))
        = (generateBellCurveOffset P (offset g) (advance (4 * i) s)).1
        /\ draw P (release_jitter (quiet_reads g s i))
           = (generateBellCurveOffset P (offset g) (advance (4 * i + 2) s)).1)
  /\ offset initial_globals = 30
  /\ (forall v, offset (setOffset v g) = v).
Proof.
  split; [|split; [intros; apply columnPlayer_ignores_offset|repeat split]].
  unfold clickHitObjects.
  rewrite (spawn_with_offset hitObjects unused1 unused2 unused1' unused2'
             startTimeAdjustment enableClicking offset_arg offset_arg').
  destruct (clickHitObjects_spawn P hitObjects unused1 unused2 _ _ offset_arg _ _ _)
    as [[g' tds]|]; [|reflexivity].
  cbn. f_equal. rewrite <- list_fmap_compose.
  apply list_fmap_ext. intros i td _. unfold compose.
  rewrite columnPlayer_ignores_offset. reflexivity.
Qed.
End SessionFacts.

(** C3 as stated fails: with the lane counts 10, 0 and -1 the call goes
    through and starts a lane player for the one position of the chart. *)
Lemma out_of_range_count_spawns_lanes :
  (fun r : Globals * list ThreadData.t => length r.2) <$>
    clickHitObjects_spawn sample_platform [tap 64 1000] 0 0 0 true 30 10 None
                          initial_globals = Some 1%nat
  /\ (fun r : Globals * list ThreadData.t => length r.2) <$>
       clickHitObjects_spawn sample_platform [tap 64 1000] 0 0 0 true 30 0 None
                             initial_globals = Some 1%nat
  /\ (fun r : Globals * list ThreadData.t => length r.2) <$>
       clickHitObjects_spawn sample_platform [tap 64 1000] 0 0 0 true 30 (-1)
                             None initial_globals = Some 1%nat.
Proof. repeat split; vm_compute; reflexivity. Qed.

Lemma out_of_range_count_selects_auto_witness :
  clickHitObjects_spawn sample_platform [tap 64 1000] 0 0 0 true 30 10 None
                        initial_globals
  = clickHitObjects_spawn sample_platform [tap 64 1000] 0 0 0 true 30 0 None
                          initial_globals.
Proof.
  refine (proj1 (out_of_range_count_selects_auto sample_platform [tap 64 1000]
                   0 0 0 true 30 10 None initial_globals _ eq_refl)).
  lia.
Defined.

(** ** Lane inference *)

Lemma compare_ints_small a b :
  small_position a -> small_position b -> compare_ints a b = a - b.
Proof.
  unfold small_position, compare_ints. intros Ha Hb.
  apply int_sub_small. lia.
Qed.

Lemma qsort_insert_perm cmp a l : qsort_insert cmp a l ≡ₚ a :: l.
Proof.
  induction l as [|b l IH]; cbn; [reflexivity|].
  destruct (_ <=? _); [reflexivity|].
  rewrite IH. apply Permutation_swap.
Qed.

Lemma qsort_perm cmp l : qsort cmp l ≡ₚ l.
Proof.
  induction l as [|a l IH]; cbn; [reflexivity|].
  rewrite qsort_insert_perm, IH. reflexivity.
Qed.

Lemma qsort_insert_sorted a l :
  small_position a -> Forall small_position l ->
  Sorted Z.le l -> Sorted Z.le (qsort_insert compare_ints a l).
Proof.
  intros Ha Hl Hs. induction l as [|b l IH]; cbn.
  - repeat constructor.
  - apply Forall_cons in Hl as [Hb Hl].
    rewrite (compare_ints_small a b Ha Hb).
    destruct (Z.leb_spec (a - b) 0) as [Hle|Hgt].
    + constructor; [exact Hs|]. constructor. lia.
    + apply Sorted_inv in Hs as [Hs Hhd].
      constructor; [apply IH; assumption|].
      destruct l as [|c l]; cbn.
      * constructor. lia.
      * apply Forall_cons in Hl as [Hc _].
        rewrite (compare_ints_small a c Ha Hc).
        apply HdRel_inv in Hhd.
        destruct (_ <=? _); constructor; lia.
Qed.

Lemma qsort_sorted l :
  Forall small_position l -> Sorted Z.le (qsort compare_ints l).
Proof.
  induction l as [|a l IH]; intros Hl; cbn; [constructor|].
  apply Forall_cons in Hl as [Ha Hl].
  apply qsort_insert_sorted; [exact Ha| |apply IH; exact Hl].
  rewrite qsort_perm. exact Hl.
Qed.

Lemma found_spec v columns : found v columns = true <-> v ∈ columns.
Proof.
  induction columns as [|c rest IH]; cbn.
  - rewrite elem_of_nil. split; [discriminate|tauto].
  - rewrite elem_of_cons. destruct (Z.eqb_spec c v) as [->|Hne].
    + tauto.
    + rewrite IH. split; [tauto|]. intros [->|H]; [congruence|exact H].
Qed.

(** While no more than [MAX_KEYS] distinct positions are in sight, the
    scan collects each position exactly once. *)
Lemma foldl_scanObject_spec l : forall columns,
  NoDup columns ->
  (forall l', NoDup l' -> (forall v, v ∈ l' -> v ∈ columns ++ (HitObject.x <$> l)) ->
              (length l' <= MAX_KEYS)%nat) ->
  NoDup (foldl scanObject columns l)
  /\ forall v, v ∈ foldl scanObject columns l <-> v ∈ columns ++ (HitObject.x <$> l).
Proof.
  induction l as [|o l IH]; intros columns Hnd Hcap; cbn [foldl];
    rewrite ?fmap_nil, ?fmap_cons in *.
  - rewrite app_nil_r. split; [exact Hnd|tauto].
  - unfold scanObject at 2 4.
    destruct (found (HitObject.x o) columns) eqn:Hf; cbn [negb andb].
    + apply found_spec in Hf.
      destruct (IH columns Hnd) as [IH1 IH2].
      { intros l' Hl' Hsub. apply Hcap; [exact Hl'|].
        intros v Hv. specialize (Hsub v Hv).
        rewrite elem_of_app in Hsub. rewrite elem_of_app, elem_of_cons. tauto. }
      split; [exact IH1|]. intros v. rewrite IH2.
      rewrite !elem_of_app, elem_of_cons. split; [tauto|].
      intros [H|[->|H]]; tauto.
    + assert (Hnot : HitObject.x o ∉ columns).
      { intros Hin. apply found_spec in Hin. congruence. }
      assert (Hnd' : NoDup (columns ++ [HitObject.x o])).
      { apply NoDup_app. split; [exact Hnd|]. split; [|apply NoDup_singleton].
        intros v Hv Hv'. apply list_elem_of_singleton in Hv'. congruence. }
      assert (Hlt : (length columns < MAX_KEYS)%nat).
      { pose proof (Hcap _ Hnd') as Hc. rewrite length_app in Hc. cbn in Hc.
        cut (length columns + 1 <= MAX_KEYS)%nat; [lia|]. apply Hc.
        intros v. rewrite !elem_of_app, !elem_of_cons, elem_of_nil. tauto. }
      apply Nat.ltb_lt in Hlt. rewrite Hlt.
      destruct (IH _ Hnd') as [IH1 IH2].
      { intros l' Hl' Hsub. apply Hcap; [exact Hl'|].
        intros v Hv. specialize (Hsub v Hv).
        rewrite !elem_of_app, list_elem_of_singleton in Hsub.
        rewrite elem_of_app, elem_of_cons. tauto. }
      split; [exact IH1|]. intros v. rewrite IH2.
      rewrite !elem_of_app, !elem_of_cons, elem_of_nil. tauto.
Qed.

Lemma detectColumns_spec hitObjects :
  (length (remove_dups (HitObject.x <$> hitObjects)) <= MAX_KEYS)%nat ->
  NoDup (detectColumns hitObjects)
  /\ forall v, v ∈ detectColumns hitObjects <-> v ∈ HitObject.x <$> hitObjects.
Proof.
  intros Hcap. unfold detectColumns.
  apply (foldl_scanObject_spec hitObjects []); [apply NoDup_nil_2|].
  intros l' Hnd Hsub. etransitivity; [|exact Hcap].
  apply submseteq_length, NoDup_submseteq; [exact Hnd|].
  intros v Hv. apply elem_of_remove_dups. apply (Hsub v Hv).
Qed.

(** For positions in the playfield's range (any whose differences fit in
    an [int]), lane inference is canonical: charts that are permutations
    of each other and have at most nine distinct positions get the same
    lane array, which lists the distinct positions in ascending order. *)
Lemma inferred_lanes_canonical (hitObjects1 hitObjects2 : list HitObject.t)
    (expectedColumnCount : Z) :
  ~ 1 <= expectedColumnCount <= 9 ->
  hitObjects1 ≡ₚ hitObjects2 ->
  (length (remove_dups (HitObject.x <$> hitObjects1)) <= MAX_KEYS)%nat ->
  Forall small_position (HitObject.x <$> hitObjects1) ->
  laneColumns hitObjects1 expectedColumnCount
  = laneColumns hitObjects2 expectedColumnCount
  /\ exists columns,
       laneColumns hitObjects1 expectedColumnCount = Some columns
       /\ Sorted Z.le columns
       /\ NoDup columns
       /\ forall v, v ∈ columns <-> v ∈ HitObject.x <$> hitObjects1.
Proof.
  intros Hout Hperm Hcap Hsmall.
  rewrite !(laneColumns_auto _ _ Hout).
  assert (Hxs : HitObject.x <$> hitObjects1 ≡ₚ HitObject.x <$> hitObjects2)
    by (rewrite Hperm; reflexivity).
  assert (Hcap2 : (length (remove_dups (HitObject.x <$> hitObjects2)) <= MAX_KEYS)%nat).
  { etransitivity; [|exact Hcap].
    apply submseteq_length, NoDup_submseteq; [apply NoDup_remove_dups|].
    intros v. rewrite !elem_of_remove_dups, Hxs. tauto. }
  destruct (detectColumns_spec _ Hcap) as [Hnd1 Hin1].
  destruct (detectColumns_spec _ Hcap2) as [Hnd2 Hin2].
  assert (Hsm1 : Forall small_position (detectColumns hitObjects1)).
  { apply Forall_forall. intros v Hv. apply Hin1 in Hv.
    rewrite Forall_forall in Hsmall. auto. }
  assert (Hsm2 : Forall small_position (detectColumns hitObjects2)).
  { apply Forall_forall. intros v Hv. apply Hin2 in Hv. rewrite <- Hxs in Hv.
    rewrite Forall_forall in Hsmall. auto. }
  assert (Hdet : detectColumns hitObjects1 ≡ₚ detectColumns hitObjects2).
  { apply NoDup_Permutation; [assumption..|].
    intros v. rewrite Hin1, Hin2, Hxs. tauto. }
  split.
  - f_equal. apply (Sorted_unique Z.le); [apply qsort_sorted; assumption..|].
    rewrite !qsort_perm. exact Hdet.
  - eexists. split; [reflexivity|].
    split; [apply qsort_sorted; exact Hsm1|].
    split; [rewrite qsort_perm; exact Hnd1|].
    intros v. rewrite qsort_perm. apply Hin1.
Qed.

(** C7 at two positions whose difference overflows [int].  The
    comparator's answers wrap: it reports 2147483647 as smaller than -2
    and -2 as greater than 2147483647, so a sort that follows it leaves
    the lane array in descending order, whichever position comes first
    in the input. *)
Theorem inferred_lanes_of_extreme_positions :
  compare_ints 2147483647 (-2) = -2147483647
  /\ compare_ints (-2) 2147483647 = 2147483647
  /\ laneColumns [tap 2147483647 1000; tap (-2) 1000] 0
     = Some [2147483647; -2]
  /\ laneColumns [tap (-2) 1000; tap 2147483647 1000] 0
     = Some [2147483647; -2]
  /\ ~ Sorted Z.le [2147483647; -2].
Proof.
  repeat split; try (vm_compute; reflexivity).
  intros H. apply Sorted_inv in H as [_ H]. apply HdRel_inv in H. lia.
Qed.

(** The four columns of a 4K chart, in whatever order and however often
    the chart visits them, give the lanes 64, 192, 320, 448. *)
Lemma inferred_lanes_4K (hitObjects : list HitObject.t)
    (expectedColumnCount : Z) :
  ~ 1 <= expectedColumnCount <= 9 ->
  (forall v, v ∈ HitObject.x <$> hitObjects <-> v ∈ [64; 192; 320; 448]) ->
  laneColumns hitObjects expectedColumnCount = Some [64; 192; 320; 448].
Proof.
  intros Hout Hxs. rewrite (laneColumns_auto _ _ Hout). f_equal.
  assert (Hcap : (length (remove_dups (HitObject.x <$> hitObjects))
                  <= MAX_KEYS)%nat).
  { transitivity (length [64; 192; 320; 448]); [|cbn; unfold MAX_KEYS; lia].
    apply submseteq_length, NoDup_submseteq; [apply NoDup_remove_dups|].
    intros v. rewrite elem_of_remove_dups. apply Hxs. }
  destruct (detectColumns_spec _ Hcap) as [Hnd Hin].
  assert (Hsmall : Forall small_position (detectColumns hitObjects)).
  { apply Forall_forall. intros v Hv. apply Hin, Hxs in Hv.
    unfold small_position.
    repeat (apply elem_of_cons in Hv as [->|Hv]; [lia|]).
    apply elem_of_nil in Hv. contradiction. }
  apply (Sorted_unique Z.le); [apply qsort_sorted; exact Hsmall| |].
  - repeat constructor; lia.
  - rewrite qsort_perm. apply NoDup_Permutation; [exact Hnd| |].
    + apply (bool_decide_unpack _). vm_compute. exact I.
    + intros v. rewrite Hin. apply Hxs.
Qed.

Example inferred_lanes_4K_scrambled :
  laneColumns [tap 320 0; tap 64 10; tap 448 20; tap 64 30; tap 192 40] 0
  = Some [64; 192; 320; 448].
Proof. vm_compute. reflexivity. Qed.

(** * Further properties *)

(** ** Lane lookup *)

Lemma getKeyIndex_from_found v columns : forall i n,
  columns !! n = Some v ->
  (forall m, (m < n)%nat -> columns !! m <> Some v) ->
  getKeyIndex_from i v columns = i + Z.of_nat n.
Proof.
  induction columns as [|c rest IH]; intros i n Hn Hfirst; [discriminate|].
  cbn [getKeyIndex_from]. destruct n as [|n].
  - cbn in Hn. injection Hn as ->. rewrite Z.eqb_refl. lia.
  - destruct (Z.eqb_spec v c) as [->|Hne].
    + exfalso. apply (Hfirst 0%nat); [lia|reflexivity].
    + rewrite (IH (i + 1) n Hn); [lia|].
      intros m Hm. apply (Hfirst (S m)). lia.
Qed.

Lemma getKeyIndex_from_missing v columns : forall i,
  v ∉ columns -> getKeyIndex_from i v columns = -1.
Proof.
  induction columns as [|c rest IH]; intros i Hv; [reflexivity|].
  cbn [getKeyIndex_from]. apply not_elem_of_cons in Hv as [Hne Hv].
  destruct (Z.eqb_spec v c); [contradiction|]. apply IH, Hv.
Qed.

(** The first index at which [v] occurs in a list that holds it. *)
Lemma first_occurrence (v : Z) (columns : list Z) :
  v ∈ columns ->
  exists n, columns !! n = Some v
            /\ forall m, (m < n)%nat -> columns !! m <> Some v.
Proof.
  induction columns as [|c rest IH]; intros Hv; [inversion Hv|].
  destruct (decide (c = v)) as [->|Hne].
  - exists 0%nat. split; [reflexivity|]. intros m Hm. lia.
  - apply elem_of_cons in Hv as [->|Hv]; [contradiction|].
    destruct (IH Hv) as (n & Hn & Hfirst). exists (S n).
    split; [exact Hn|]. intros [|m] Hm; cbn.
    + congruence.
    + apply Hfirst. lia.
Qed.

(** X1.  [getKeyIndex] answers [-1] exactly for a position that is in no
    lane, and otherwise the first index that holds the position. *)
Theorem getKeyIndex_finds_first_lane (v : Z) (columns : list Z) :
  (getKeyIndex v columns = -1 <-> v ∉ columns)
  /\ forall n : nat,
       getKeyIndex v columns = Z.of_nat n <->
       columns !! n = Some v
       /\ forall m, (m < n)%nat -> columns !! m <> Some v.
Proof.
  unfold getKeyIndex.
  destruct (decide (v ∈ columns)) as [Hin|Hout].
  - destruct (first_occurrence v columns Hin) as (k & Hk & Hfirst).
    pose proof (getKeyIndex_from_found v columns 0 k Hk Hfirst) as Hidx.
    split.
    + split; [lia|contradiction].
    + intros n. split.
      * intros Hn. assert (n = k) as -> by lia. auto.
      * intros [Hn Hfirstn]. rewrite Hidx.
        destruct (Nat.lt_trichotomy n k) as [Hlt|[->|Hgt]].
        -- exfalso. apply (Hfirst n Hlt Hn).
        -- lia.
        -- exfalso. apply (Hfirstn k Hgt Hk).
  - rewrite (getKeyIndex_from_missing v columns 0 Hout).
    split; [tauto|]. intros n. split; [lia|].
    intros [Hn _]. exfalso. apply Hout.
    apply list_elem_of_lookup. eauto.
Qed.

Lemma getKeyIndex_lookup (v : Z) (columns : list Z) (n : nat) :
  getKeyIndex v columns = Z.of_nat n -> columns !! n = Some v.
Proof.
  intros Hn. destruct (decide (v ∈ columns)) as [Hin|Hout].
  - destruct (first_occurrence v columns Hin) as (k & Hk & Hfirst).
    pose proof (getKeyIndex_from_found v columns 0 k Hk Hfirst) as Hidx.
    unfold getKeyIndex in Hn. assert (n = k) as -> by lia. exact Hk.
  - unfold getKeyIndex in Hn.
    rewrite (getKeyIndex_from_missing v columns 0 Hout) in Hn. lia.
Qed.

Lemma getKeyIndex_of_member (v : Z) (columns : list Z) :
  v ∈ columns ->
  exists n, getKeyIndex v columns = Z.of_nat n /\ (n < length columns)%nat.
Proof.
  intros Hin. destruct (first_occurrence v columns Hin) as (k & Hk & Hfirst).
  exists k. split.
  - unfold getKeyIndex. rewrite (getKeyIndex_from_found v columns 0 k Hk Hfirst).
    lia.
  - apply lookup_lt_is_Some. eauto.
Qed.

Lemma lane_objects_of_elem columns i hitObjects o :
  o ∈ lane_objects_of columns i hitObjects ->
  o ∈ hitObjects /\ getKeyIndex (HitObject.x o) columns = Z.of_nat i.
Proof.
  unfold lane_objects_of. intros Ho.
  apply subseteq_take in Ho. apply list_elem_of_filter in Ho. tauto.
Qed.

Lemma lane_objects_of_length columns i hitObjects :
  Z.of_nat (length (lane_objects_of columns i hitObjects))
  <= MAX_OBJECTS_PER_COLUMN.
Proof.
  unfold lane_objects_of. rewrite length_take. unfold MAX_OBJECTS_PER_COLUMN.
  lia.
Qed.

(** What [clickHitObjects_spawn] returns, taken apart. *)
Lemma spawn_inv P hitObjects unused1 unused2 adj en off expected customKeys
    g g' tds :
  clickHitObjects_spawn P hitObjects unused1 unused2 adj en off expected
    customKeys g = Some (g', tds) ->
  exists columns ks,
    laneColumns hitObjects expected = Some columns
    /\ (length columns <= MAX_KEYS)%nat
    /\ setupKeyBindings P columns (length columns) customKeys (keyStates g)
       = Some ks
    /\ g' = with_keyStates ks g
    /\ length tds = length columns
    /\ forall i td, tds !! i = Some td ->
         (i < length columns)%nat
         /\ td = {| ThreadData.objects := lane_objects_of columns i hitObjects;
                    ThreadData.columnIndex := i;
                    ThreadData.startTimeAdjustment := adj;
                    ThreadData.enableClicking := en;
                    ThreadData.offset := off |}.
Proof.
  unfold clickHitObjects_spawn.
  destruct (laneColumns hitObjects expected) as [columns|] eqn:Hc;
    [|discriminate].
  cbn [mbind option_bind].
  destruct (setupKeyBindings _ _ _ _ _) as [ks|] eqn:Hk; [|discriminate].
  cbn [mbind option_bind]. intros [= <- <-].
  pose proof (laneColumns_length _ _ _ Hc) as Hlen.
  exists columns, ks. repeat split; try assumption.
  - apply threadData_length.
  - apply threadData_lookup in H. tauto.
  - unfold threadData in H. rewrite list_lookup_fmap in H.
    destruct (seq 0 (length columns) !! i) as [j|] eqn:Hj; [|discriminate].
    apply lookup_seq in Hj as [-> Hlt]. cbn in H. injection H as <-.
    rewrite columnObjects_lookup by lia. reflexivity.
Qed.

Section LaneFacts.
Variable P : Platform.

(** X2.  Every object handed to a lane comes from the input and sits at
    that lane's position, and no object is handed to two lanes. *)
Theorem lanes_are_disjoint (hitObjects : list HitObject.t)
    (unused1 unused2 startTimeAdjustment : Z) (enableClicking : bool)
    (offset_arg expectedColumnCount : Z) (customKeys : option (list Z))
    (g g' : Globals) (tds : list ThreadData.t) :
  clickHitObjects_spawn P hitObjects unused1 unused2 startTimeAdjustment
    enableClicking offset_arg expectedColumnCount customKeys g
  = Some (g', tds) ->
  exists columns,
    laneColumns hitObjects expectedColumnCount = Some columns
    /\ forall i td o,
         tds !! i = Some td -> o ∈ ThreadData.objects td ->
         o ∈ hitObjects
         /\ columns !! i = Some (HitObject.x o)
         /\ forall j td', tds !! j = Some td' ->
                          o ∈ ThreadData.objects td' -> j = i.
Proof.
  intros Hs. apply spawn_inv in Hs
    as (columns & ks & Hc & Hlen & _ & _ & _ & Htds).
  exists columns. split; [exact Hc|].
  intros i td o Htd Ho. apply Htds in Htd as [_ ->]. cbn in Ho.
  apply lane_objects_of_elem in Ho as [Hin Hidx].
  split; [exact Hin|]. split; [apply getKeyIndex_lookup, Hidx|].
  intros j td' Htd' Ho'. apply Htds in Htd' as [_ ->]. cbn in Ho'.
  apply lane_objects_of_elem in Ho' as [_ Hidx']. lia.
Qed.

(** X3.  The call starts at most [MAX_KEYS] lane players; the player of
    lane [i] is bound to entry [i] of [keyStates], is given the call's
    start adjustment and clicking switch, and at most
    [MAX_OBJECTS_PER_COLUMN] objects. *)
Theorem spawned_lanes_fit_their_arrays (hitObjects : list HitObject.t)
    (unused1 unused2 startTimeAdjustment : Z) (enableClicking : bool)
    (offset_arg expectedColumnCount : Z) (customKeys : option (list Z))
    (g g' : Globals) (tds : list ThreadData.t) :
  clickHitObjects_spawn P hitObjects unused1 unused2 startTimeAdjustment
    enableClicking offset_arg expectedColumnCount customKeys g
  = Some (g', tds) ->
  (length tds <= MAX_KEYS)%nat
  /\ forall i td, tds !! i = Some td ->
       ThreadData.columnIndex td = i
       /\ (i < MAX_KEYS)%nat
       /\ ThreadData.startTimeAdjustment td = startTimeAdjustment
       /\ ThreadData.enableClicking td = enableClicking
       /\ Z.of_nat (length (ThreadData.objects td)) <= MAX_OBJECTS_PER_COLUMN.
Proof.
  intros Hs. apply spawn_inv in Hs
    as (columns & ks & Hc & Hlen & _ & _ & Hn & Htds).
  split; [lia|].
  intros i td Htd. apply Htds in Htd as [Hi ->]. cbn.
  repeat split; try lia. apply lane_objects_of_length.
Qed.

End LaneFacts.

(** ** Lane inference and explicit lanes *)

Lemma foldl_scanObject_distinct l : forall columns,
  NoDup columns ->
  NoDup (foldl scanObject columns l)
  /\ forall v, v ∈ foldl scanObject columns l ->
               v ∈ columns \/ v ∈ HitObject.x <$> l.
Proof.
  induction l as [|o l IH]; intros columns Hnd; cbn [foldl].
  - split; [exact Hnd|]. auto.
  - assert (Hnd' : NoDup (scanObject columns o)).
    { unfold scanObject.
      destruct (found (HitObject.x o) columns) eqn:Hf; cbn [negb andb];
        [exact Hnd|].
      destruct (_ <? _)%nat; [|exact Hnd].
      apply NoDup_app. split; [exact Hnd|]. split; [|apply NoDup_singleton].
      intros v Hv Hv'. apply list_elem_of_singleton in Hv'. subst v.
      apply found_spec in Hv. congruence. }
    destruct (IH _ Hnd') as [IH1 IH2]. split; [exact IH1|].
    intros v Hv. apply IH2 in Hv. rewrite fmap_cons, elem_of_cons.
    destruct Hv as [Hv|Hv]; [|tauto].
    unfold scanObject in Hv.
    destruct (negb _ && _); [|tauto].
    apply elem_of_app in Hv as [Hv|Hv]; [tauto|].
    apply list_elem_of_singleton in Hv. tauto.
Qed.

(** X4.  Whatever the chart, the lanes inferred from it are pairwise
    distinct positions that occur in it, nine at most. *)
Theorem inferred_lanes_are_distinct_positions (hitObjects : list HitObject.t)
    (expectedColumnCount : Z) (columns : list Z) :
  ~ 1 <= expectedColumnCount <= 9 ->
  laneColumns hitObjects expectedColumnCount = Some columns ->
  NoDup columns
  /\ (length columns <= MAX_KEYS)%nat
  /\ forall v, v ∈ columns -> v ∈ HitObject.x <$> hitObjects.
Proof.
  intros Hout Hc. rewrite (laneColumns_auto _ _ Hout) in Hc.
  injection Hc as <-.
  destruct (foldl_scanObject_distinct hitObjects [] (NoDup_nil_2)) as [Hnd Hin].
  fold (detectColumns hitObjects) in Hnd, Hin.
  split; [rewrite qsort_perm; exact Hnd|].
  split; [rewrite qsort_length; apply detectColumns_length|].
  intros v Hv. rewrite qsort_perm in Hv.
  destruct (Hin v Hv) as [H|H]; [inversion H|exact H].
Qed.

Section CompletenessFacts.
Variable P : Platform.

(** X5.  With lanes inferred from a chart of at most nine distinct
    positions and at most [MAX_OBJECTS_PER_COLUMN] objects, nothing is
    dropped: every object of the chart is handed to a lane. *)
Theorem inferred_lanes_cover_the_chart (hitObjects : list HitObject.t)
    (unused1 unused2 startTimeAdjustment : Z) (enableClicking : bool)
    (offset_arg expectedColumnCount : Z) (customKeys : option (list Z))
    (g g' : Globals) (tds : list ThreadData.t) :
  ~ 1 <= expectedColumnCount <= 9 ->
  (length (remove_dups (HitObject.x <$> hitObjects)) <= MAX_KEYS)%nat ->
  Z.of_nat (length hitObjects) <= MAX_OBJECTS_PER_COLUMN ->
  clickHitObjects_spawn P hitObjects unused1 unused2 startTimeAdjustment
    enableClicking offset_arg expectedColumnCount customKeys g
  = Some (g', tds) ->
  forall o, o ∈ hitObjects ->
    exists i td, tds !! i = Some td /\ o ∈ ThreadData.objects td.
Proof.
  intros Hout Hcap Hmax Hs o Ho.
  apply spawn_inv in Hs as (columns & ks & Hc & Hlen & _ & _ & Hn & Htds).
  rewrite (laneColumns_auto _ _ Hout) in Hc. injection Hc as <-.
  destruct (detectColumns_spec _ Hcap) as [_ Hin].
  assert (Hx : HitObject.x o ∈ qsort compare_ints (detectColumns hitObjects)).
  { rewrite qsort_perm. apply Hin. apply list_elem_of_fmap_2. exact Ho. }
  destruct (getKeyIndex_of_member _ _ Hx) as (n & Hidx & Hlt).
  destruct (lookup_lt_is_Some_2 tds n) as [td Htd]; [lia|].
  exists n, td. split; [exact Htd|].
  apply Htds in Htd as [_ ->]. cbn. unfold lane_objects_of.
  rewrite take_ge.
  - apply list_elem_of_filter. split; [exact Hidx|exact Ho].
  - pose proof (length_filter
      (fun o0 => getKeyIndex (HitObject.x o0)
                   (qsort compare_ints (detectColumns hitObjects)) = Z.of_nat n)
      hitObjects). lia.
Qed.

(** X6.  An empty chart with inferred lanes starts no lane player and
    leaves the globals as they are. *)
Theorem empty_chart_starts_nothing (unused1 unused2 startTimeAdjustment : Z)
    (enableClicking : bool) (offset_arg expectedColumnCount : Z)
    (customKeys : option (list Z)) (g : Globals) (envs : nat -> LaneEnv) :
  ~ 1 <= expectedColumnCount <= 9 ->
  clickHitObjects_spawn P [] unused1 unused2 startTimeAdjustment
    enableClicking offset_arg expectedColumnCount customKeys g = Some (g, [])
  /\ clickHitObjects P [] unused1 unused2 startTimeAdjustment
       enableClicking offset_arg expectedColumnCount customKeys g envs
     = Some [].
Proof.
  intros Hout.
  assert (Hs : clickHitObjects_spawn P [] unused1 unused2 startTimeAdjustment
    enableClicking offset_arg expectedColumnCount customKeys g = Some (g, [])).
  { unfold clickHitObjects_spawn. rewrite (laneColumns_auto _ _ Hout).
    destruct customKeys, g; reflexivity. }
  split; [exact Hs|]. unfold clickHitObjects. rewrite Hs. reflexivity.
Qed.

End CompletenessFacts.

(** X7.  For every lane count from 1 to 9 the explicit branch yields that
    many lane positions, strictly ascending and inside the playfield
    [0, 512), whatever the chart holds. *)
Theorem explicit_lanes_are_ascending (hitObjects : list HitObject.t)
    (expectedColumnCount : Z) :
  1 <= expectedColumnCount <= 9 ->
  exists columns,
    laneColumns hitObjects expectedColumnCount = Some columns
    /\ explicitColumns expectedColumnCount = Some columns
    /\ Z.of_nat (length columns) = expectedColumnCount
    /\ Sorted Z.lt columns
    /\ Forall (fun v => 0 <= v < 512) columns.
Proof.
  intros HL.
  assert (H : expectedColumnCount = 1 \/ expectedColumnCount = 2
              \/ expectedColumnCount = 3 \/ expectedColumnCount = 4
              \/ expectedColumnCount = 5 \/ expectedColumnCount = 6
              \/ expectedColumnCount = 7 \/ expectedColumnCount = 8
              \/ expectedColumnCount = 9) by lia.
  destruct H as [->|[->|[->|[->|[->|[->|[->|[->| ->]]]]]]]].
  all: eexists; split; [vm_compute; reflexivity|].
  all: split; [vm_compute; reflexivity|].
  all: split; [reflexivity|].
  all: split; [repeat constructor; lia|repeat constructor; lia].
Qed.

(** ** More on the lane player *)

Section PlayerShape.
Variable P : Platform.
Variable td : ThreadData.t.
Variable env : LaneEnv.

Lemma playFrom_dry objs :
  ThreadData.enableClicking td = false ->
  forall i ps ks,
    events (playFrom P td env i objs ps ks) = []
    /\ keys_after (playFrom P td env i objs ps ks) = ks.
Proof.
  intros Hdry. induction objs as [|obj rest IH]; intros i ps ks; [auto|].
  cbn [playFrom]. destruct ps as [|q ps1]; [auto|].
  destruct (poll_stop q); [auto|].
  destruct (objectTimes _ _ _ _ _) as [[pressTime releaseTime]|]; [|auto].
  destruct (busyWait env pressTime _ ps1) as [e2 ps2| |];
    try solve [cbn; auto].
  unfold click. rewrite Hdry.
  destruct (busyWait env releaseTime e2 ps2) as [e3 ps3| |]; cbn; auto.
Qed.

(** X8.  With clicking disabled a lane player injects no key event and
    leaves [keyStates] as it found it, whatever it is given to play. *)
Theorem dry_run_injects_nothing (ks : list KeyState.t) :
  ThreadData.enableClicking td = false ->
  events (columnPlayer P td env ks) = []
  /\ keys_after (columnPlayer P td env ks) = ks.
Proof. intros Hdry. unfold columnPlayer. apply playFrom_dry, Hdry. Qed.

Lemma click_frame down ks evs ks' :
  click td down ks = Some (evs, ks') ->
  (forall j, j <> ThreadData.columnIndex td -> ks' !! j = ks !! j)
  /\ forall s, ks !! ThreadData.columnIndex td = Some s ->
       exists b, ks' !! ThreadData.columnIndex td
                 = Some (KeyState.with_is_pressed b s).
Proof.
  unfold click. destruct (ThreadData.enableClicking td).
  - destruct (ks !! ThreadData.columnIndex td) as [s0|] eqn:Hs0; cbn;
      [|discriminate].
    intros [= _ <-]. split.
    + intros j Hj. apply list_lookup_insert_ne. congruence.
    + intros s [= <-]. exists down. apply list_lookup_insert_eq.
      apply lookup_lt_is_Some. eauto.
  - intros [= _ <-]. split; [reflexivity|].
    intros s Hs. exists (KeyState.is_pressed s). rewrite Hs.
    destruct s; reflexivity.
Qed.

Lemma playFrom_frame objs :
  forall i ps ks,
    (forall j, j <> ThreadData.columnIndex td ->
               keys_after (playFrom P td env i objs ps ks) !! j = ks !! j)
    /\ forall s, ks !! ThreadData.columnIndex td = Some s ->
         exists b, keys_after (playFrom P td env i objs ps ks)
                     !! ThreadData.columnIndex td
                   = Some (KeyState.with_is_pressed b s).
Proof.
  assert (Hsame : forall ks : list KeyState.t,
    (forall j, j <> ThreadData.columnIndex td -> ks !! j = ks !! j)
    /\ forall s, ks !! ThreadData.columnIndex td = Some s ->
         exists b, ks !! ThreadData.columnIndex td
                   = Some (KeyState.with_is_pressed b s)).
  { intros ks. split; [reflexivity|]. intros s Hs.
    exists (KeyState.is_pressed s). rewrite Hs. destruct s; reflexivity. }
  induction objs as [|obj rest IH]; intros i ps ks; [apply Hsame|].
  cbn [playFrom]. destruct ps as [|q ps1]; [apply Hsame|].
  destruct (poll_stop q); [apply Hsame|].
  destruct (objectTimes _ _ _ _ _) as [[pressTime releaseTime]|];
    [|apply Hsame].
  destruct (busyWait env pressTime _ ps1) as [e2 ps2| |]; try apply Hsame.
  destruct (click td true ks) as [[down ks1]|] eqn:Hc1; [|apply Hsame].
  destruct (click_frame _ _ _ _ Hc1) as [Hf1 Ho1].
  destruct (busyWait env releaseTime e2 ps2) as [e3 ps3| |];
    try (cbn; split; [exact Hf1|exact Ho1]).
  destruct (click td false ks1) as [[up ks2]|] eqn:Hc2;
    [|cbn; split; [exact Hf1|exact Ho1]].
  destruct (click_frame _ _ _ _ Hc2) as [Hf2 Ho2].
  destruct (IH (S i) ps3 ks2) as [Hf3 Ho3]. cbn. split.
  - intros j Hj. rewrite Hf3, Hf2, Hf1 by exact Hj. reflexivity.
  - intros s Hs. destruct (Ho1 s Hs) as [b1 Hs1].
    destruct (Ho2 _ Hs1) as [b2 Hs2]. destruct (Ho3 _ Hs2) as [b3 Hs3].
    exists b3. exact Hs3.
Qed.

(** X9.  A lane player writes no entry of [keyStates] but its own, and of
    its own entry nothing but the pressed flag: the bound key stays. *)
Theorem player_writes_only_its_flag (ks : list KeyState.t) :
  length (keys_after (columnPlayer P td env ks)) = length ks
  /\ (forall j, j <> ThreadData.columnIndex td ->
                keys_after (columnPlayer P td env ks) !! j = ks !! j)
  /\ forall s, ks !! ThreadData.columnIndex td = Some s ->
       exists b, keys_after (columnPlayer P td env ks)
                   !! ThreadData.columnIndex td
                 = Some (KeyState.with_is_pressed b s).
Proof.
  unfold columnPlayer. split; [apply playFrom_length|apply playFrom_frame].
Qed.

Lemma playFrom_shape (s : KeyState.t) objs :
  ThreadData.enableClicking td = true ->
  KeyState.is_pressed s = false ->
  forall i ps ks,
    ks !! ThreadData.columnIndex td = Some s ->
    exists (n : nat) (pending : bool),
      events (playFrom P td env i objs ps ks)
      = concat (replicate n [KeyDown (KeyState.key s); KeyUp (KeyState.key s)])
        ++ (if pending then [KeyDown (KeyState.key s)] else [])
      /\ (n + (if pending then 1 else 0) <= length objs)%nat
      /\ keys_after (playFrom P td env i objs ps ks)
           !! ThreadData.columnIndex td
         = Some (KeyState.with_is_pressed pending s)
      /\ (exit (playFrom P td env i objs ps ks) = Completed ->
          pending = false /\ n = length objs).
Proof.
  intros Hen Hup.
  assert (Hid : KeyState.with_is_pressed false s = s)
    by (apply with_is_pressed_id, Hup).
  assert (Hnone : forall (ks : list KeyState.t) (m : nat) (e : Exit),
    e <> Completed ->
    ks !! ThreadData.columnIndex td = Some s ->
    exists (n : nat) (pending : bool),
      @nil KeyEvent
      = concat (replicate n [KeyDown (KeyState.key s); KeyUp (KeyState.key s)])
        ++ (if pending then [KeyDown (KeyState.key s)] else [])
      /\ (n + (if pending then 1 else 0) <= S m)%nat
      /\ ks !! ThreadData.columnIndex td
         = Some (KeyState.with_is_pressed pending s)
      /\ (e = Completed -> pending = false /\ n = S m)).
  { intros ks m e He Hs. exists 0%nat, false. cbn. rewrite Hid.
    repeat split; try (lia || assumption); contradiction. }
  induction objs as [|obj rest IH]; intros i ps ks Hs.
  - exists 0%nat, false. cbn. rewrite Hid. auto.
  - cbn [playFrom length]. destruct ps as [|q ps1]; [apply Hnone; easy|].
    destruct (poll_stop q); [apply Hnone; easy|].
    destruct (objectTimes _ _ _ _ _) as [[pressTime releaseTime]|];
      [|apply Hnone; easy].
    destruct (busyWait env pressTime _ ps1) as [e2 ps2| |];
      try (apply Hnone; easy).
    unfold click. rewrite Hen, Hs. cbn [mbind option_bind].
    assert (Hlt : (ThreadData.columnIndex td < length ks)%nat)
      by (apply lookup_lt_is_Some; eauto).
    rewrite list_lookup_insert_eq by exact Hlt. cbn [mbind option_bind].
    destruct (busyWait env releaseTime e2 ps2) as [e3 ps3| |].
    + destruct (IH (S i) ps3
        (<[ThreadData.columnIndex td :=
             KeyState.with_is_pressed false (KeyState.with_is_pressed true s)]>
           (<[ThreadData.columnIndex td := KeyState.with_is_pressed true s]> ks)))
        as (n & pending & Hev & Hle & Hkeys & Hdone).
      { rewrite list_lookup_insert_eq by (rewrite length_insert; exact Hlt).
        f_equal. exact Hid. }
      exists (S n), pending. cbn. rewrite Hev. cbn.
      repeat split; try (lia || assumption); apply Hdone in H; tauto || lia.
    + exists 0%nat, true. cbn.
      rewrite list_lookup_insert_eq by exact Hlt.
      repeat split; try (lia || reflexivity); discriminate.
    + exists 0%nat, true. cbn.
      rewrite list_lookup_insert_eq by exact Hlt.
      repeat split; try (lia || reflexivity); discriminate.
Qed.

(** X10.  A clicking lane player whose key is up when it starts injects
    key-down and key-up of its bound key in strict alternation, at most
    one pair per object; its pressed flag is set exactly when a key-down
    is still unanswered; and when it has played its last object every
    object has had its pair and the key is up. *)
Theorem player_alternates_down_and_up (s : KeyState.t) (ks : list KeyState.t) :
  ThreadData.enableClicking td = true ->
  ks !! ThreadData.columnIndex td = Some s ->
  KeyState.is_pressed s = false ->
  exists (n : nat) (pending : bool),
    events (columnPlayer P td env ks)
    = concat (replicate n [KeyDown (KeyState.key s); KeyUp (KeyState.key s)])
      ++ (if pending then [KeyDown (KeyState.key s)] else [])
    /\ (n + (if pending then 1 else 0) <= length (ThreadData.objects td))%nat
    /\ keys_after (columnPlayer P td env ks) !! ThreadData.columnIndex td
       = Some (KeyState.with_is_pressed pending s)
    /\ (exit (columnPlayer P td env ks) = Completed ->
        pending = false /\ n = length (ThreadData.objects td)).
Proof.
  intros Hen Hs Hup. unfold columnPlayer. apply playFrom_shape; assumption.
Qed.

(** X11.  A busy-wait that ends by reaching its target has consumed only
    polls that read the stop flag clear, and ends on a clock reading that
    is not below the target: the reading it started with, or that of the
    last poll consumed.  A busy-wait that ends in a return has met, after
    such polls, one that reads the flag set. *)
Theorem busyWait_ends_on_time_or_stop (target : Z) (elapsed : CDouble.double)
    (ps : list Poll) :
  (forall e' rest,
     busyWait env target elapsed ps = Reached e' rest ->
     CDouble.ltb e' (CDouble.of_Z target) = false
     /\ exists used,
          ps = used ++ rest
          /\ Forall (fun p => poll_stop p = false) used
          /\ e' = match last used with
                  | Some p => elapsedTime env (poll_counter p)
                  | None => elapsed
                  end)
  /\ (busyWait env target elapsed ps = Stopped ->
      exists used p rest,
        ps = used ++ p :: rest
        /\ Forall (fun p' => poll_stop p' = false) used
        /\ poll_stop p = true).
Proof.
  revert elapsed. induction ps as [|q ps IH]; intros elapsed; cbn [busyWait].
  - destruct (CDouble.ltb _ _) eqn:Hlt; split; try discriminate.
    intros e' rest [= <- <-]. split; [exact Hlt|].
    exists []. repeat split. constructor.
  - destruct (CDouble.ltb elapsed _) eqn:Hlt.
    + destruct (poll_stop q) eqn:Hq.
      * split; [discriminate|]. intros _. exists [], q, ps.
        repeat split; [constructor|exact Hq].
      * destruct (IH (elapsedTime env (poll_counter q))) as [IHr IHs]. split.
        -- intros e' rest Hw. destruct (IHr e' rest Hw) as (Hge & used & -> & Hall & He).
           split; [exact Hge|]. exists (q :: used).
           split; [reflexivity|]. split; [constructor; assumption|].
           rewrite He. destruct used as [|p used]; [reflexivity|].
           change (last (q :: p :: used)) with (last (p :: used)).
           destruct (last (p :: used)) eqn:Hl; [reflexivity|].
           apply last_None in Hl. discriminate.
        -- intros Hw. destruct (IHs Hw) as (used & p & rest & -> & Hall & Hp).
           exists (q :: used), p, rest.
           split; [reflexivity|]. split; [constructor; assumption|exact Hp].
    + split; [|discriminate]. intros e' rest [= <- <-]. split; [exact Hlt|].
      exists []. repeat split. constructor.
Qed.

End PlayerShape.

(** ** Tunables and the stop flag *)

Lemma wrap_add_l (a b : Z) :
  CInt.wrap 32 (CInt.wrap 32 a + b) = CInt.wrap 32 (a + b).
Proof.
  unfold CInt.wrap. f_equal.
  replace ((a + 2 ^ (32 - 1)) mod 2 ^ 32 - 2 ^ (32 - 1) + b + 2 ^ (32 - 1))
    with ((a + 2 ^ (32 - 1)) mod 2 ^ 32 + b) by lia.
  rewrite Zplus_mod_idemp_l. f_equal. lia.
Qed.

Ltac int_sums :=
  unfold CInt.add;
  repeat (rewrite wrap_add_l || rewrite <- Z.add_assoc);
  f_equal; lia.

Section TunableFacts.
Variable P : Platform.

(** X12.  [setTimingShift(v)] moves the press time of every object by
    [v] ms, and so the release time of an object that has no successor in
    its lane: with no other thread interfering, the times computed under
    the shift [v] are those computed under the shift 0 plus [v] (in
    [int] arithmetic). *)
Theorem timing_shift_moves_times (g : Globals) (v startTimeAdjustment : Z)
    (obj : HitObject.t) (nextObj : option HitObject.t) (s : RandState)
    (i : nat) (pressTime releaseTime : Z) :
  objectTimes P startTimeAdjustment obj nextObj
    (quiet_reads (setTimingShift 0 g) s i) = Some (pressTime, releaseTime) ->
  exists releaseTime',
    objectTimes P startTimeAdjustment obj nextObj
      (quiet_reads (setTimingShift v g) s i)
    = Some (CInt.add pressTime v, releaseTime')
    /\ (nextObj = None -> releaseTime' = CInt.add releaseTime v).
Proof.
  unfold objectTimes, quiet_reads, setTimingShift.
  cbn [press_jitter release_jitter shift_at_press shift_at_release offset
       timingShift].
  destruct (draw P {| amplitude := offset g; source := advance (4 * i) s |})
    as [pressOffset|]; [|cbn; discriminate].
  destruct (draw P _) as [releaseOffset|]; [|cbn; discriminate].
  cbn [mbind option_bind]. intros [= <- <-].
  eexists. split.
  - f_equal. f_equal. int_sums.
  - intros ->. destruct (_ =? 128); int_sums.
Qed.

(** X13.  [clickHitObjects] never writes the stop flag or the two
    tunables.  Called while the flag still reads set, it plays nothing:
    every lane player that has an object returns at its first check (one
    that has none returns as completed), injects no key event and leaves
    [keyStates] as the key binding made it. *)
Theorem stop_flag_is_not_cleared (hitObjects : list HitObject.t)
    (unused1 unused2 startTimeAdjustment : Z) (enableClicking : bool)
    (offset_arg expectedColumnCount : Z) (customKeys : option (list Z))
    (g g' : Globals) (tds : list ThreadData.t) (envs : nat -> LaneEnv) :
  clickHitObjects_spawn P hitObjects unused1 unused2 startTimeAdjustment
    enableClicking offset_arg expectedColumnCount customKeys g
  = Some (g', tds) ->
  (forall i, exists p rest, polls (envs i) = p :: rest /\ poll_stop p = true) ->
  stopClicking g' = stopClicking g
  /\ timingShift g' = timingShift g
  /\ offset g' = offset g
  /\ exists reports,
       clickHitObjects P hitObjects unused1 unused2 startTimeAdjustment
         enableClicking offset_arg expectedColumnCount customKeys g envs
       = Some reports
       /\ length reports = length tds
       /\ forall rep, rep ∈ reports ->
            events (lane_run rep) = []
            /\ keys_after (lane_run rep) = keyStates g'
            /\ exit (lane_run rep)
               = match lane_objects rep with
                 | [] => Completed
                 | _ :: _ => Cancelled
                 end.
Proof.
  intros Hs Hstop.
  pose proof Hs as Hinv. apply spawn_inv in Hinv
    as (columns & ks & _ & _ & _ & -> & _ & _).
  repeat split; try reflexivity.
  unfold clickHitObjects. rewrite Hs. eexists. split; [reflexivity|].
  split; [apply length_fmap|].
  intros rep Hrep. apply list_elem_of_fmap in Hrep as (td & -> & _).
  cbn [lane_run lane_objects]. unfold columnPlayer.
  destruct (Hstop (ThreadData.columnIndex td)) as (p & rest & -> & Hp).
  destruct (ThreadData.objects td) as [|obj objs]; cbn [playFrom].
  - repeat split.
  - rewrite Hp. repeat split.
Qed.

End TunableFacts.

(** ** More on key bindings *)

Section BindingFacts.
Variable P : Platform.

Lemma set_key_lookup i k ks ks' :
  set_key i k ks = Some ks' ->
  length ks' = length ks
  /\ forall j, ks' !! j
       = if decide (j = i) then KeyState.with_key k <$> ks !! j else ks !! j.
Proof.
  unfold set_key. destruct (ks !! i) as [s|] eqn:Hs; [|discriminate].
  cbn. intros [= <-]. split; [apply length_insert|].
  intros j. destruct (decide (j = i)) as [->|Hne].
  - rewrite Hs. cbn. apply list_lookup_insert_eq.
    apply lookup_lt_is_Some. eauto.
  - apply list_lookup_insert_ne. congruence.
Qed.

Lemma bindCustom_spec (table : list Z) (n : nat) : forall i ks,
  (i + n <= length ks)%nat -> (i + n <= length table)%nat ->
  exists ks',
    bindCustom table n i ks = Some ks'
    /\ length ks' = length ks
    /\ forall j, ks' !! j
         = if decide (i <= j < i + n)%nat
           then (fun s => KeyState.with_key (default 0 (table !! j)) s)
                  <$> ks !! j
           else ks !! j.
Proof.
  induction n as [|n IH]; intros i ks Hks Htable; cbn [bindCustom].
  - exists ks. repeat split. intros j. rewrite decide_False by lia. reflexivity.
  - destruct (lookup_lt_is_Some_2 table i) as [k Hk]; [lia|].
    destruct (lookup_lt_is_Some_2 ks i) as [s Hs]; [lia|].
    rewrite Hk. cbn [mbind option_bind].
    destruct (set_key i k ks) as [ks1|] eqn:Hset;
      [|unfold set_key in Hset; rewrite Hs in Hset; discriminate].
    apply set_key_lookup in Hset as [Hlen1 Hlook1]. cbn [mbind option_bind].
    destruct (IH (S i) ks1) as (ks' & Hb & Hlen & Hlook); [lia..|].
    exists ks'. split; [exact Hb|]. split; [congruence|].
    intros j. rewrite Hlook, Hlook1.
    repeat case_decide; try lia; try reflexivity.
    subst j. rewrite Hk. reflexivity.
Qed.

Lemma bindCustom_short (table : list Z) (n : nat) : forall i ks,
  (i + n <= length ks)%nat -> (i <= length table < i + n)%nat ->
  bindCustom table n i ks = None.
Proof.
  induction n as [|n IH]; intros i ks Hks Htable; [lia|].
  cbn [bindCustom]. destruct (table !! i) as [k|] eqn:Hk; [|reflexivity].
  cbn [mbind option_bind].
  destruct (set_key i k ks) as [ks1|] eqn:Hset; [|reflexivity].
  apply set_key_lookup in Hset as [Hlen1 _]. cbn [mbind option_bind].
  apply IH; [lia|].
  apply lookup_lt_Some in Hk. lia.
Qed.

(** X14.  A custom key table is used verbatim: lane [j] below the lane
    count gets entry [j] of the table, every other field and every other
    entry of [keyStates] stays.  The table has to hold an entry for each
    lane: a shorter one is read beyond its end. *)
Theorem custom_keys_are_used_verbatim (columns table : list Z)
    (columnCount : nat) (ks : list KeyState.t) :
  (columnCount <= length ks)%nat ->
  ((columnCount <= length table)%nat ->
   exists ks',
     setupKeyBindings P columns columnCount (Some table) ks = Some ks'
     /\ length ks' = length ks
     /\ (forall j, (j < columnCount)%nat ->
           KeyState.key <$> ks' !! j = table !! j)
     /\ (forall j, (columnCount <= j)%nat -> ks' !! j = ks !! j)
     /\ forall j, KeyState.is_pressed <$> ks' !! j
                  = KeyState.is_pressed <$> ks !! j)
  /\ ((length table < columnCount)%nat ->
      setupKeyBindings P columns columnCount (Some table) ks = None).
Proof.
  intros Hks. unfold setupKeyBindings. split.
  - intros Htable.
    destruct (bindCustom_spec table columnCount 0 ks)
      as (ks' & Hb & Hlen & Hlook); [lia..|].
    exists ks'. split; [exact Hb|]. split; [exact Hlen|].
    split; [|split].
    + intros j Hj. rewrite Hlook, decide_True by lia.
      destruct (lookup_lt_is_Some_2 ks j) as [s Hs]; [lia|].
      destruct (lookup_lt_is_Some_2 table j) as [k Hk]; [lia|].
      rewrite Hs, Hk. reflexivity.
    + intros j Hj. rewrite Hlook, decide_False by lia. reflexivity.
    + intros j. rewrite Hlook.
      destruct (decide _); [|reflexivity].
      destruct (ks !! j); reflexivity.
  - intros Hshort. apply bindCustom_short; lia.
Qed.

Lemma same_but_keys_refl ks : same_but_keys ks ks.
Proof.
  apply Forall_Forall2_diag, Forall_forall. intros s _.
  exists (KeyState.key s). destruct s; reflexivity.
Qed.

Lemma same_but_keys_trans ks1 ks2 ks3 :
  same_but_keys ks1 ks2 -> same_but_keys ks2 ks3 -> same_but_keys ks1 ks3.
Proof.
  unfold same_but_keys. intros H12. revert ks3.
  induction H12 as [|s1 s2 l1 l2 [k ->] _ IH]; intros ks3 H23.
  - inversion H23. constructor.
  - inversion H23 as [|? s3 ? l3 [k' ->] Hrest]; subst.
    constructor; [exists k'; reflexivity|]. apply IH, Hrest.
Qed.

Lemma set_key_same i k ks ks' :
  set_key i k ks = Some ks' -> same_but_keys ks ks'.
Proof.
  unfold set_key. destruct (ks !! i) as [s|] eqn:Hs; [|discriminate].
  cbn. intros [= <-]. unfold same_but_keys.
  revert i Hs. induction ks as [|s0 ks IH]; intros i Hs; [discriminate|].
  destruct i as [|i]; cbn in *.
  - injection Hs as ->. constructor; [eauto|apply same_but_keys_refl].
  - constructor; [|apply IH, Hs].
    exists (KeyState.key s0). destruct s0; reflexivity.
Qed.

Lemma bindLeft_same n : forall keyIndex ks ks',
  bindLeft P n keyIndex ks = Some ks' -> same_but_keys ks ks'.
Proof.
  induction n as [|n IH]; intros keyIndex ks ks'; cbn [bindLeft].
  - intros [= <-]. apply same_but_keys_refl.
  - destruct (array_get _ _) as [k|]; [|discriminate]. cbn [mbind option_bind].
    destruct (set_key _ _ _) as [ks1|] eqn:Hset; [|discriminate].
    cbn [mbind option_bind]. intros Hb.
    eapply same_but_keys_trans; [apply (set_key_same _ _ _ _ Hset)|].
    apply (IH _ _ _ Hb).
Qed.

Lemma bindRight_same n : forall i keyIndex ks ks',
  bindRight P n i keyIndex ks = Some ks' -> same_but_keys ks ks'.
Proof.
  induction n as [|n IH]; intros i keyIndex ks ks'; cbn [bindRight].
  - intros [= <-]. apply same_but_keys_refl.
  - destruct (array_get _ _) as [k|]; [|discriminate]. cbn [mbind option_bind].
    destruct (set_key _ _ _) as [ks1|] eqn:Hset; [|discriminate].
    cbn [mbind option_bind]. intros Hb.
    eapply same_but_keys_trans; [apply (set_key_same _ _ _ _ Hset)|].
    apply (IH _ _ _ _ Hb).
Qed.

Lemma bindCustom_same table n : forall i ks ks',
  bindCustom table n i ks = Some ks' -> same_but_keys ks ks'.
Proof.
  induction n as [|n IH]; intros i ks ks'; cbn [bindCustom].
  - intros [= <-]. apply same_but_keys_refl.
  - destruct (table !! i) as [k|]; [|discriminate]. cbn [mbind option_bind].
    destruct (set_key _ _ _) as [ks1|] eqn:Hset; [|discriminate].
    cbn [mbind option_bind]. intros Hb.
    eapply same_but_keys_trans; [apply (set_key_same _ _ _ _ Hset)|].
    apply (IH _ _ _ Hb).
Qed.

(** X15.  Binding keys, by table or by the default layout, for any lane
    count, touches nothing but key fields: the pressed flags and the two
    time fields of all entries are what they were, so a key recorded as
    held stays recorded as held - under its new binding. *)
Theorem binding_keeps_pressed_flags (columns : list Z) (columnCount : nat)
    (customKeys : option (list Z)) (ks ks' : list KeyState.t) :
  setupKeyBindings P columns columnCount customKeys ks = Some ks' ->
  length ks' = length ks
  /\ forall j s', ks' !! j = Some s' ->
       exists s, ks !! j = Some s
                 /\ KeyState.is_pressed s' = KeyState.is_pressed s
                 /\ KeyState.press_time s' = KeyState.press_time s
                 /\ KeyState.release_time s' = KeyState.release_time s.
Proof.
  intros Hb.
  assert (Hsame : same_but_keys ks ks').
  { unfold setupKeyBindings in Hb. destruct customKeys as [table|].
    - apply (bindCustom_same _ _ _ _ _ Hb).
    - destruct (_ =? 1)%nat.
      + destruct (set_key _ _ _) as [ks1|] eqn:H1; [|discriminate].
        cbn [mbind option_bind] in Hb.
        destruct (bindLeft _ _ _ _) as [ks2|] eqn:H2; [|discriminate].
        cbn [mbind option_bind] in Hb.
        eapply same_but_keys_trans; [apply (set_key_same _ _ _ _ H1)|].
        eapply same_but_keys_trans; [apply (bindLeft_same _ _ _ _ H2)|].
        apply (bindRight_same _ _ _ _ _ Hb).
      + destruct (bindLeft _ _ _ _) as [ks1|] eqn:H1; [|discriminate].
        cbn [mbind option_bind] in Hb.
        eapply same_but_keys_trans; [apply (bindLeft_same _ _ _ _ H1)|].
        apply (bindRight_same _ _ _ _ _ Hb). }
  split; [symmetry; apply (Forall2_length _ _ _ Hsame)|].
  intros j s' Hs'.
  destruct (Forall2_lookup_r _ _ _ _ _ Hsame Hs') as (s & Hs & k & ->).
  exists s. repeat split. exact Hs.
Qed.

End BindingFacts.

(** ** What is left out, and why a lane returns *)

Lemma scanObject_keeps columns o v : v ∈ columns -> v ∈ scanObject columns o.
Proof.
  unfold scanObject. intros Hv. destruct (_ && _); [|exact Hv].
  apply elem_of_app. tauto.
Qed.

Lemma foldl_scanObject_keeps l : forall columns v,
  v ∈ columns -> v ∈ foldl scanObject columns l.
Proof.
  induction l as [|o l IH]; intros columns v Hv; [exact Hv|].
  cbn [foldl]. apply IH, scanObject_keeps, Hv.
Qed.

Lemma foldl_scanObject_full l : forall columns v,
  (length columns <= MAX_KEYS)%nat ->
  v ∈ HitObject.x <$> l ->
  v ∈ foldl scanObject columns l
  \/ length (foldl scanObject columns l) = MAX_KEYS.
Proof.
  induction l as [|o l IH]; intros columns v Hlen Hv; [inversion Hv|].
  rewrite fmap_cons in Hv. cbn [foldl].
  pose proof (scanObject_length columns o Hlen) as Hstep.
  apply elem_of_cons in Hv as [->|Hv]; [|apply IH; [lia|exact Hv]].
  pose proof (foldl_scanObject_length l (scanObject columns o)) as Hrest.
  unfold scanObject in *.
  destruct (found (HitObject.x o) columns) eqn:Hf; cbn [negb andb] in *.
  - left. apply foldl_scanObject_keeps, found_spec, Hf.
  - destruct (Nat.ltb_spec (length columns) MAX_KEYS) as [Hlt|Hge].
    + left. apply foldl_scanObject_keeps, elem_of_app. right.
      apply list_elem_of_singleton. reflexivity.
    + right. lia.
Qed.

(** X16.  With inferred lanes, a position of the chart is left without
    a lane only when all [MAX_KEYS] lanes are taken by other positions. *)
Theorem position_without_lane_means_nine_lanes
    (hitObjects : list HitObject.t) (expectedColumnCount : Z)
    (columns : list Z) (o : HitObject.t) :
  ~ 1 <= expectedColumnCount <= 9 ->
  laneColumns hitObjects expectedColumnCount = Some columns ->
  o ∈ hitObjects ->
  getKeyIndex (HitObject.x o) columns = -1 ->
  length columns = MAX_KEYS.
Proof.
  intros Hout Hc Ho Hidx. rewrite (laneColumns_auto _ _ Hout) in Hc.
  injection Hc as <-. rewrite qsort_length.
  assert (Hx0 : HitObject.x o ∈ HitObject.x <$> hitObjects)
    by apply list_elem_of_fmap_2, Ho.
  assert (H0 : (length (@nil Z) <= MAX_KEYS)%nat)
    by (cbn; unfold MAX_KEYS; lia).
  destruct (foldl_scanObject_full hitObjects [] (HitObject.x o) H0 Hx0)
    as [Hin|Hfull]; [|exact Hfull].
  exfalso. fold (detectColumns hitObjects) in Hin.
  assert (Hx : HitObject.x o ∈ qsort compare_ints (detectColumns hitObjects))
    by (rewrite qsort_perm; exact Hin).
  destruct (getKeyIndex_of_member _ _ Hx) as (n & Hn & _). lia.
Qed.

Section ReturnFacts.
Variable P : Platform.
Variable td : ThreadData.t.
Variable env : LaneEnv.

Lemma busyWait_reached_suffix target : forall ps elapsed e' rest,
  busyWait env target elapsed ps = Reached e' rest ->
  forall p, p ∈ rest -> p ∈ ps.
Proof.
  induction ps as [|q ps IH]; intros elapsed e' rest; cbn [busyWait].
  - destruct (CDouble.ltb _ _); [discriminate|]. intros [= _ <-]. auto.
  - destruct (CDouble.ltb _ _).
    + destruct (poll_stop q); [discriminate|]. intros Hw p Hp.
      apply elem_of_cons. right. apply (IH _ _ _ Hw p Hp).
    + intros [= _ <-]. auto.
Qed.

Lemma busyWait_stopped_poll target : forall ps elapsed,
  busyWait env target elapsed ps = Stopped ->
  exists p, p ∈ ps /\ poll_stop p = true.
Proof.
  induction ps as [|q ps IH]; intros elapsed; cbn [busyWait].
  - destruct (CDouble.ltb _ _); discriminate.
  - destruct (CDouble.ltb _ _); [|discriminate].
    destruct (poll_stop q) eqn:Hq.
    + intros _. exists q. split; [apply elem_of_cons; tauto|exact Hq].
    + intros Hw. destruct (IH _ Hw) as (p & Hp & Hstop).
      exists p. split; [apply elem_of_cons; tauto|exact Hstop].
Qed.

Lemma playFrom_cancelled objs : forall i ps ks,
  exit (playFrom P td env i objs ps ks) = Cancelled ->
  exists p, p ∈ ps /\ poll_stop p = true.
Proof.
  induction objs as [|obj rest IH]; intros i ps ks; [discriminate|].
  cbn [playFrom]. destruct ps as [|q ps1]; [discriminate|].
  destruct (poll_stop q) eqn:Hq.
  { intros _. exists q. split; [apply elem_of_cons; tauto|exact Hq]. }
  destruct (objectTimes _ _ _ _ _) as [[pressTime releaseTime]|];
    [|discriminate].
  destruct (busyWait env pressTime _ ps1) as [e2 ps2| |] eqn:Hw1;
    [| |discriminate].
  - destruct (click td true ks) as [[down ks1]|]; [|discriminate].
    destruct (busyWait env releaseTime e2 ps2) as [e3 ps3| |] eqn:Hw2;
      [| |discriminate].
    + destruct (click td false ks1) as [[up ks2]|]; [|discriminate].
      cbn. intros Hc. destruct (IH _ _ _ Hc) as (p & Hp & Hstop).
      exists p. split; [|exact Hstop]. apply elem_of_cons. right.
      apply (busyWait_reached_suffix _ _ _ _ _ Hw1).
      apply (busyWait_reached_suffix _ _ _ _ _ Hw2). exact Hp.
    + intros _. destruct (busyWait_stopped_poll _ _ _ Hw2) as (p & Hp & Hstop).
      exists p. split; [|exact Hstop]. apply elem_of_cons. right.
      apply (busyWait_reached_suffix _ _ _ _ _ Hw1). exact Hp.
  - intros _. destruct (busyWait_stopped_poll _ _ _ Hw1) as (p & Hp & Hstop).
    exists p. split; [|exact Hstop]. apply elem_of_cons. tauto.
Qed.

(** X17.  A lane player gives up only on request: when none of its polls
    reads the stop flag set, its run does not end cancelled. *)
Theorem player_cancels_only_on_stop (ks : list KeyState.t) :
  Forall (fun p => poll_stop p = false) (polls env) ->
  exit (columnPlayer P td env ks) <> Cancelled.
Proof.
  intros Hall Hc. unfold columnPlayer in Hc.
  destruct (playFrom_cancelled _ _ _ _ Hc) as (p & Hp & Hstop).
  rewrite Forall_forall in Hall. specialize (Hall p Hp). congruence.
Qed.

End ReturnFacts.

(** ** Lane order and lane count *)

Lemma Sorted_le_NoDup_lt (l : list Z) :
  Sorted Z.le l -> NoDup l -> Sorted Z.lt l.
Proof.
  intros Hs Hnd. apply Sorted_StronglySorted in Hs; [|intros a b c; lia].
  apply StronglySorted_Sorted.
  induction Hs as [|a l Hs IH Hall]; [constructor|].
  apply NoDup_cons in Hnd as [Ha Hnd]. constructor; [auto|].
  rewrite Forall_forall in Hall |- *. intros b Hb.
  specialize (Hall b Hb). assert (a <> b) by (intros ->; auto). lia.
Qed.

Lemma laneColumns_explicit (hitObjects : list HitObject.t) (L : Z) :
  1 <= L <= 9 ->
  exists columns,
    laneColumns hitObjects L = Some columns /\ Z.of_nat (length columns) = L.
Proof.
  intros HL.
  assert (H : L = 1 \/ L = 2 \/ L = 3 \/ L = 4 \/ L = 5 \/ L = 6 \/ L = 7
              \/ L = 8 \/ L = 9) by lia.
  destruct H as [->|[->|[->|[->|[->|[->|[->|[->| ->]]]]]]]].
  all: eexists; split; [vm_compute; reflexivity|reflexivity].
Qed.

(** X18.  Where the positions of the chart are far from the ends of
    [int] - as playfield positions are - the inferred lanes come out in
    strictly ascending order, lane 0 leftmost, however many positions the
    chart visits and in whatever order. *)
Theorem inferred_lanes_ascend_for_small_positions
    (hitObjects : list HitObject.t) (expectedColumnCount : Z) :
  ~ 1 <= expectedColumnCount <= 9 ->
  Forall small_position (HitObject.x <$> hitObjects) ->
  exists columns,
    laneColumns hitObjects expectedColumnCount = Some columns
    /\ Sorted Z.lt columns
    /\ forall i j vi vj,
         columns !! i = Some vi -> columns !! j = Some vj ->
         (i < j)%nat -> vi < vj.
Proof.
  intros Hout Hsmall. rewrite (laneColumns_auto _ _ Hout).
  eexists. split; [reflexivity|].
  destruct (foldl_scanObject_distinct hitObjects [] (NoDup_nil_2)) as [Hnd Hin].
  fold (detectColumns hitObjects) in Hnd, Hin.
  assert (Hsm : Forall small_position (detectColumns hitObjects)).
  { apply Forall_forall. intros v Hv.
    destruct (Hin v Hv) as [H|H]; [inversion H|].
    rewrite Forall_forall in Hsmall. auto. }
  assert (Hlt : Sorted Z.lt (qsort compare_ints (detectColumns hitObjects))).
  { apply Sorted_le_NoDup_lt; [apply qsort_sorted, Hsm|].
    rewrite qsort_perm. exact Hnd. }
  split; [exact Hlt|].
  apply Sorted_StronglySorted in Hlt; [|intros a b c; lia].
  revert Hlt. generalize (qsort compare_ints (detectColumns hitObjects)).
  intros l Hl. induction Hl as [|a l Hl IH Hall]; intros i j vi vj Hi Hj Hij.
  - rewrite lookup_nil in Hi. discriminate.
  - destruct j as [|j]; [lia|]. cbn in Hj. destruct i as [|i].
    + cbn in Hi. injection Hi as <-.
      rewrite Forall_forall in Hall. apply Hall.
      eapply list_elem_of_lookup_2, Hj.
    + cbn in Hi. apply (IH i j); [assumption..|lia].
Qed.

Section CountFacts.

Variable P : Platform.

(** X19.  An explicit lane count from 1 to 9 starts that many lane
    players whatever the chart holds, be it empty; a player whose lane got
    no object returns at once as completed, having injected nothing and
    without a look at the stop flag. *)
Theorem explicit_count_starts_that_many_players
    (hitObjects : list HitObject.t)
    (unused1 unused2 startTimeAdjustment : Z) (enableClicking : bool)
    (offset_arg expectedColumnCount : Z) (g : Globals) :
  1 <= expectedColumnCount <= 9 ->
  length (keyStates g) = MAX_KEYS ->
  exists g' tds,
    clickHitObjects_spawn P hitObjects unused1 unused2 startTimeAdjustment
      enableClicking offset_arg expectedColumnCount None g = Some (g', tds)
    /\ Z.of_nat (length tds) = expectedColumnCount
    /\ forall envs, exists reports,
         clickHitObjects P hitObjects unused1 unused2 startTimeAdjustment
           enableClicking offset_arg expectedColumnCount None g envs
         = Some reports
         /\ Z.of_nat (length reports) = expectedColumnCount
         /\ forall rep, rep ∈ reports -> lane_objects rep = [] ->
              events (lane_run rep) = []
              /\ keys_after (lane_run rep) = keyStates g'
              /\ exit (lane_run rep) = Completed.
Proof.
  intros HL Hks.
  destruct (laneColumns_explicit hitObjects _ HL) as (columns & Hc & Hlen).
  destruct (setupKeyBindings_defined P columns (length columns) (keyStates g))
    as [ks Hbind]; [unfold MAX_KEYS; lia|exact Hks|].
  assert (Hspawn :
    clickHitObjects_spawn P hitObjects unused1 unused2 startTimeAdjustment
      enableClicking offset_arg expectedColumnCount None g
    = Some (with_keyStates ks g,
            threadData (columnObjects columns hitObjects) (length columns)
                       startTimeAdjustment enableClicking offset_arg)).
  { unfold clickHitObjects_spawn. rewrite Hc. cbn [mbind option_bind].
    rewrite Hbind. reflexivity. }
  eexists _, _. split; [exact Hspawn|].
  split; [rewrite threadData_length; exact Hlen|].
  intros envs. unfold clickHitObjects. rewrite Hspawn.
  eexists. split; [reflexivity|].
  split; [rewrite length_fmap, threadData_length; exact Hlen|].
  intros rep Hrep Hempty.
  apply list_elem_of_fmap in Hrep as (td & -> & _). cbn in Hempty |- *.
  unfold columnPlayer. rewrite Hempty. cbn. auto.
Qed.

End CountFacts.

(** ** Instances *)

Lemma sample_chart_spawn :
  clickHitObjects_spawn sample_platform sample_chart 0 0 0 true 30 0 None
                        initial_globals
  = Some (sample_bound_globals, sample_threads).
Proof. vm_compute. reflexivity. Qed.

Lemma lanes_are_disjoint_witness :
  tap 64 2000 ∈ sample_chart.
Proof.
  destruct (lanes_are_disjoint sample_platform sample_chart 0 0 0 true 30 0
              None initial_globals sample_bound_globals sample_threads
              sample_chart_spawn) as (columns & _ & Hlanes).
  refine (proj1 (Hlanes 0%nat
            {| ThreadData.objects := [tap 64 1000; tap 64 2000];
               ThreadData.columnIndex := 0;
               ThreadData.startTimeAdjustment := 0;
               ThreadData.enableClicking := true;
               ThreadData.offset := 30 |}
            (tap 64 2000) eq_refl _)).
  cbn. apply list_elem_of_further, list_elem_of_here.
Defined.

Lemma spawned_lanes_fit_their_arrays_witness :
  (length sample_threads <= MAX_KEYS)%nat.
Proof.
  exact (proj1 (spawned_lanes_fit_their_arrays sample_platform sample_chart
                  0 0 0 true 30 0 None initial_globals sample_bound_globals
                  sample_threads sample_chart_spawn)).
Defined.

Lemma inferred_lanes_are_distinct_positions_witness :
  NoDup [64; 192]
  /\ (length [64; 192] <= MAX_KEYS)%nat
  /\ forall v, v ∈ [64; 192] -> v ∈ HitObject.x <$> sample_chart.
Proof.
  apply (inferred_lanes_are_distinct_positions sample_chart 0 [64; 192]).
  - lia.
  - vm_compute. reflexivity.
Defined.

Lemma inferred_lanes_cover_the_chart_witness :
  exists i td,
    sample_threads !! i = Some td /\ tap 192 1000 ∈ ThreadData.objects td.
Proof.
  apply (inferred_lanes_cover_the_chart sample_platform sample_chart 0 0 0
           true 30 0 None initial_globals sample_bound_globals sample_threads).
  - lia.
  - vm_compute. lia.
  - vm_compute. discriminate.
  - exact sample_chart_spawn.
  - apply list_elem_of_further, list_elem_of_here.
Defined.

Lemma explicit_lanes_are_ascending_witness :
  exists columns,
    laneColumns sample_chart 4 = Some columns
    /\ explicitColumns 4 = Some columns
    /\ Z.of_nat (length columns) = 4
    /\ Sorted Z.lt columns
    /\ Forall (fun v => 0 <= v < 512) columns.
Proof. apply (explicit_lanes_are_ascending sample_chart 4). lia. Defined.

Lemma empty_chart_starts_nothing_witness :
  clickHitObjects sample_platform [] 0 0 0 true 30 0 None initial_globals
                  (fun _ => sample_env) = Some [].
Proof.
  refine (proj2 (empty_chart_starts_nothing sample_platform 0 0 0 true 30 0
                   None initial_globals (fun _ => sample_env) _)).
  lia.
Defined.

Lemma dry_run_injects_nothing_witness :
  events (columnPlayer sample_platform sample_dry_lane
            (with_polls sample_polls sample_env) sample_keyStates) = [].
Proof.
  exact (proj1 (dry_run_injects_nothing sample_platform sample_dry_lane
                  (with_polls sample_polls sample_env) sample_keyStates
                  eq_refl)).
Defined.

Lemma player_alternates_down_and_up_witness :
  exists (n : nat) (pending : bool),
    events (columnPlayer sample_platform sample_lane
              (with_polls sample_polls sample_env) sample_keyStates)
    = concat (replicate n [KeyDown 68; KeyUp 68])
      ++ (if pending then [KeyDown 68] else []).
Proof.
  destruct (player_alternates_down_and_up sample_platform sample_lane
              (with_polls sample_polls sample_env)
              {| KeyState.key := 68; KeyState.press_time := 0;
                 KeyState.release_time := 0; KeyState.is_pressed := false |}
              sample_keyStates eq_refl eq_refl eq_refl)
    as (n & pending & Hev & _).
  exists n, pending. exact Hev.
Defined.

Lemma stop_flag_is_not_cleared_witness :
  stopClicking sample_bound_globals = stopClicking initial_globals.
Proof.
  refine (proj1 (stop_flag_is_not_cleared sample_platform sample_chart 0 0 0
                   true 30 0 None initial_globals sample_bound_globals
                   sample_threads (fun _ => stopped_env)
                   sample_chart_spawn _)).
  intros i. eexists _, _. split; reflexivity.
Defined.

Lemma timing_shift_moves_times_witness :
  exists releaseTime',
    objectTimes sample_platform 0 (tap 64 1000) None
      (quiet_reads (setTimingShift (-100) (setOffset 0 initial_globals))
                   (sample_source 1) 0)
    = Some (CInt.add 1000 (-100), releaseTime')
    /\ (@None HitObject.t = None -> releaseTime' = CInt.add 1050 (-100)).
Proof.
  apply (timing_shift_moves_times sample_platform
           (setOffset 0 initial_globals) (-100) 0 (tap 64 1000) None
           (sample_source 1) 0 1000 1050).
  vm_compute. reflexivity.
Defined.

Lemma custom_keys_are_used_verbatim_witness :
  exists ks',
    setupKeyBindings sample_platform [64; 192] 2 (Some [90; 88])
                     (keyStates initial_globals) = Some ks'
    /\ length ks' = length (keyStates initial_globals)
    /\ (forall j, (j < 2)%nat -> KeyState.key <$> ks' !! j = [90; 88] !! j)
    /\ (forall j, (2 <= j)%nat -> ks' !! j = keyStates initial_globals !! j)
    /\ forall j, KeyState.is_pressed <$> ks' !! j
                 = KeyState.is_pressed <$> keyStates initial_globals !! j.
Proof.
  refine (proj1 (custom_keys_are_used_verbatim sample_platform [64; 192]
                   [90; 88] 2 (keyStates initial_globals) _) _); cbn; lia.
Defined.

Lemma binding_keeps_pressed_flags_witness :
  length sample_keyStates = length (keyStates initial_globals).
Proof.
  refine (proj1 (binding_keeps_pressed_flags sample_platform [] 4 None
                   (keyStates initial_globals) sample_keyStates _)).
  vm_compute. reflexivity.
Defined.

Lemma position_without_lane_means_nine_lanes_witness :
  length [10; 20; 30; 40; 50; 60; 70; 80; 90] = MAX_KEYS.
Proof.
  apply (position_without_lane_means_nine_lanes wide_chart 0
           [10; 20; 30; 40; 50; 60; 70; 80; 90] (tap 100 0)).
  - lia.
  - vm_compute. reflexivity.
  - unfold wide_chart. cbn. do 9 apply list_elem_of_further.
    apply list_elem_of_here.
  - vm_compute. reflexivity.
Defined.

Lemma player_cancels_only_on_stop_witness :
  Forall (fun p => poll_stop p = false) sample_polls
  /\ exit (columnPlayer sample_platform sample_lane
             (with_polls sample_polls sample_env) sample_keyStates)
     <> Cancelled.
Proof.
  assert (Hquiet : Forall (fun p => poll_stop p = false) sample_polls)
    by repeat constructor.
  split; [exact Hquiet|].
  apply (player_cancels_only_on_stop sample_platform sample_lane
           (with_polls sample_polls sample_env) sample_keyStates).
  exact Hquiet.
Defined.

Lemma inferred_lanes_ascend_for_small_positions_witness :
  exists columns,
    laneColumns sample_chart 0 = Some columns
    /\ Sorted Z.lt columns
    /\ forall i j vi vj,
         columns !! i = Some vi -> columns !! j = Some vj ->
         (i < j)%nat -> vi < vj.
Proof.
  apply (inferred_lanes_ascend_for_small_positions sample_chart 0).
  - lia.
  - cbn. repeat (apply Forall_cons_2; [unfold small_position; lia|]).
    apply Forall_nil_2.
Defined.

Lemma explicit_count_starts_that_many_players_witness :
  exists g' tds,
    clickHitObjects_spawn sample_platform [] 0 0 0 true 30 4 None
                          initial_globals = Some (g', tds)
    /\ Z.of_nat (length tds) = 4.
Proof.
  destruct (explicit_count_starts_that_many_players sample_platform [] 0 0 0
              true 30 4 initial_globals) as (g' & tds & Hspawn & Hlen & _).
  - lia.
  - reflexivity.
  - exists g', tds. split; [exact Hspawn|exact Hlen].
Defined.
